(** * PopCounter: the pop detector and spectral matcher of [src/main.js]

    A shallow embedding of the detection and matching code of [main.js]
    (similarity scorer, best-match search, accept/reject decision, frame
    handler with its cooldown, start/stop, reference loading and the lazy
    feature cache), and the properties of it that the specification states.

    JavaScript numbers are IEEE 754 binary64 values: they are modelled by
    Rocq's primitive [float], whose operations are the same binary64
    operations (round to nearest, ties to even).  The integer-valued
    globals [counter] and [cooldown] and the loop indices are modelled by
    [Z]: they only ever hold small integers, on which binary64 arithmetic is
    exact. *)

From Stdlib Require Import ZArith Floats Lia.
From stdpp Require Import base list.

Local Open Scope float_scope.

(** ** JavaScript number primitives *)

Module JS.

(** [v[i]] used as an operand of arithmetic: an index past the end reads
    [undefined], which arithmetic converts to NaN. *)
Definition index (v : list float) (i : nat) : float :=
  match v !! i with
  | Some x => x
  | None => nan
  end.

(** [x > y]. *)
Definition gt (x y : float) : bool := y <? x.

(** [Math.abs]. *)
Definition Math_abs (x : float) : float := abs x.

(** [Math.max] of two numbers: NaN if either is NaN, and [+0] is larger
    than [-0]. *)
Definition Math_max (x y : float) : float :=
  if is_nan x || is_nan y then nan
  else if x <? y then y
  else if y <? x then x
  else match classify x with
       | NZero => y
       | _ => x
       end.

(** [Number.isFinite]. *)
Definition isFinite (x : float) : bool :=
  match classify x with
  | NaN | PInf | NInf => false
  | _ => true
  end.

End JS.

(** ** The order of binary64 values

    [<] on numbers that are not NaN is the lexicographic order of a rank: the
    sign class first, then exponent and mantissa, both negated for negative
    numbers.  The two zeros share a rank. *)

Definition SFrank (x : spec_float) : Z * Z * Z :=
  match x with
  | S754_nan | S754_zero _ => (0, 0, 0)
  | S754_infinity s => (if s then -2 else 2, 0, 0)
  | S754_finite s m e => if s then (-1, - e, - Zpos m) else (1, e, Zpos m)
  end%Z.

Definition lex_lt (a b : Z * Z * Z) : Prop :=
  (a.1.1 < b.1.1 \/
   (a.1.1 = b.1.1 /\ (a.1.2 < b.1.2 \/ (a.1.2 = b.1.2 /\ a.2 < b.2))))%Z.

(** ** Constants (lines 8-11) *)

Definition COOLDOWN_FRAMES : Z := 10.
#[warnings="-inexact-float"]
Definition THRESHOLD : float := 0.23.
Definition FFT_SIZE : Z := 2048.
#[warnings="-inexact-float"]
Definition SIMILARITY_THRESHOLD : float := 0.95.

(** ** Similarity scorer (lines 58-70) *)

(** The three accumulators of [cosineSimilarity]. *)
Record sums := Sums { dotProduct : float; magA : float; magB : float }.

(** The body of the [for] loop at index [i]. *)
Definition cosine_body (vecA vecB : list float) (s : sums) (i : nat) : sums :=
  {| dotProduct := dotProduct s + JS.index vecA i * JS.index vecB i;
     magA := magA s + JS.index vecA i * JS.index vecA i;
     magB := magB s + JS.index vecB i * JS.index vecB i |}.

(** [for (let i = 0; i < vecA.length; i++)]. *)
Definition cosine_sums (vecA vecB : list float) : sums :=
  fold_left (cosine_body vecA vecB) (seq 0 (length vecA)) (Sums 0 0 0).

Definition cosineSimilarity (vecA vecB : list float) : float :=
  let s := cosine_sums vecA vecB in
  let magA := sqrt (magA s) in
  let magB := sqrt (magB s) in
  dotProduct s / (magA * magB).

(** The magnitude that [cosineSimilarity] computes for a vector: the square
    root of the running sum of squares, started at [0]. *)
Definition sum_squares (v : list float) : float :=
  fold_left (fun acc x => acc + x * x) v 0.

Definition magnitude (v : list float) : float := sqrt (sum_squares v).

(** A vector of zeros: digital silence. *)
Definition all_zero (v : list float) : Prop := Forall (fun x => is_zero x = true) v.

(** The values a sum of zero terms started at [+0] can take. *)
Definition pzero_or_nan (x : float) : Prop :=
  Prim2SF x = S754_zero false \/ x = nan.

(** ** Data model *)

(** Text shown by [setStatus].  The two match messages are template
    strings; they are kept as the template together with the values
    interpolated into it. *)
Inductive status_msg :=
  | MsgPage           (* the text of the page before the script sets one *)
  | MsgWelcome        (* 'Record some reference pops or click Start!' *)
  | MsgListening      (* 'Listening... Pop your mouth!' *)
  | MsgStopped        (* 'Stopped.' *)
  | MsgMicUnavailable (* 'Microphone access denied or not available.' *)
  | MsgNoReferences   (* 'No reference pops to compare against!' *)
  | MsgMatched (index : Z) (score : float)
      (* `Pop! Matched Ref #${index + 1} (Score: ${score.toFixed(2)})` *)
  | MsgNoMatch (index : Z) (score : float).
      (* `Pop detected, but no match (Best: #${index + 1}, Score: ${score.toFixed(2)})` *)

(** The message of an accepted match. *)
Definition is_accept (msg : status_msg) : bool :=
  match msg with
  | MsgMatched _ _ => true
  | _ => false
  end.

(** Text of the toggle button. *)
Inductive toggle_label := LabelStart | LabelStop.

(** [bestMatch = { score, index }] (line 79). *)
Record bestMatch := BestMatch { score : float; index : Z }.

Definition initial_best : bestMatch := {| score := -1; index := -1 |}.

Section PopCounter.

(** The recorded payload of a reference ([Blob]) is opaque to [main.js]. *)
Context {Blob : Type}.

(** [getFeatures] (lines 52-56) runs the [FFT] class of an external
    library on the buffer and returns its spectrum; the transform is a
    parameter of the development. *)
Variable getFeatures : list float -> list float.

(** [(await audioCtx.decodeAudioData(await blob.arrayBuffer())).getChannelData(0)]:
    the browser's decoder, a parameter as well.  It gives the samples the
    two promises are fulfilled with; a decode that is rejected is treated
    in section [Rejection] below. *)
Variable decodeChannel : Blob -> list float.

(** Modelled from the spec: [storage.js] is not among the sources;
    [getAllReferences()] yields an ordered sequence of records
    [{id, rawPayload}], the payload being the field [blob] that
    [main.js] reads. *)
Record dbRecord := DbRecord { rec_id : Z; rec_blob : Blob }.

(** An element of [refSamples]: the stored record and the lazily set
    [features] property ([None] while the property is absent).  The
    [url] property only feeds the list shown on the page and is left out.
    [extractions] is instrumentation: it counts how many times line 86
    has assigned [features] on this object. *)
Record refSample := RefSample {
  ref_id : Z;
  blob : Blob;
  features : option (list float);
  extractions : nat
}.

(** The module-level variables of [main.js] that the detector uses, with
    the two texts it writes to the page.  [generation] is
    instrumentation: [refSamples] is only ever assigned a whole array of
    fresh objects (line 182) and [generation] counts these assignments, so
    that a reference object is identified by the generation it was created
    in and its position in the array. *)
Record state := State {
  counter : Z;
  running : bool;
  cooldown : Z;
  refSamples : list refSample;
  generation : nat;
  statusText : status_msg;
  toggleText : toggle_label
}.

Definition set_counter (c : Z) (st : state) : state :=
  State c (running st) (cooldown st) (refSamples st) (generation st)
        (statusText st) (toggleText st).
Definition set_running (b : bool) (st : state) : state :=
  State (counter st) b (cooldown st) (refSamples st) (generation st)
        (statusText st) (toggleText st).
Definition set_cooldown (c : Z) (st : state) : state :=
  State (counter st) (running st) c (refSamples st) (generation st)
        (statusText st) (toggleText st).
Definition set_refSamples (rs : list refSample) (st : state) : state :=
  State (counter st) (running st) (cooldown st) rs (generation st)
        (statusText st) (toggleText st).
Definition setStatus (msg : status_msg) (st : state) : state :=
  State (counter st) (running st) (cooldown st) (refSamples st) (generation st)
        msg (toggleText st).
Definition set_toggleText (l : toggle_label) (st : state) : state :=
  State (counter st) (running st) (cooldown st) (refSamples st) (generation st)
        (statusText st) l.

(** ** Match engine: [analyzeAndCompare] (lines 72-103)

    [analyzeAndCompare] is an [async] function.  Its body runs inside the
    call up to the first [await] it reaches; the only [await]s are those of
    line 85, reached for a reference whose [features] are absent.  A call
    therefore either finishes at once or is suspended in the loop, to be
    resumed by the event loop when the decoded audio is available; other
    callbacks may run in between. *)

(** A match suspended at line 85: its local variables.  The object held by
    [ref] is given by [t_gen] and [t_i], and [t_blob] is its [blob].  The two
    [await]s of the line are one suspension: the code between them neither
    reads nor writes the state. *)
Record task := Task {
  t_popFeatures : list float;
  t_best : bestMatch;
  t_i : nat;
  t_gen : nat;
  t_blob : Blob
}.

Inductive outcome :=
  | Finished (st : state)
  | Suspended (st : state) (t : task).

Definition final (o : outcome) : state :=
  match o with
  | Finished st => st
  | Suspended st _ => st
  end.

Definition finished (o : outcome) : bool :=
  match o with
  | Finished _ => true
  | Suspended _ _ => false
  end.

(** Lines 89-92: score reference [i] and keep it if it beats the best. *)
Definition better (popFeatures : list float) (best : bestMatch) (i : nat)
    (refFeatures : list float) : bestMatch :=
  let score' := cosineSimilarity popFeatures refFeatures in
  if JS.gt score' (score best) then {| score := score'; index := Z.of_nat i |}
  else best.

(** Lines 95-102: the decision. *)
Definition verdict (best : bestMatch) (st : state) : state :=
  if JS.gt (score best) SIMILARITY_THRESHOLD then
    set_cooldown COOLDOWN_FRAMES
      (setStatus (MsgMatched (index best) (score best))
         (set_counter (counter st + 1) st))
  else
    setStatus (MsgNoMatch (index best) (score best)) st.

(** The loop of lines 81-93 from index [i] on, [rest] being
    [refSamples[i..]]: it runs until a reference without [features] is
    met, or to the end of the array and the decision. *)
Fixpoint scan (popFeatures : list float) (rest : list refSample) (i : nat)
    (best : bestMatch) (st : state) : outcome :=
  match rest with
  | [] => Finished (verdict best st)
  | ref :: rest' =>
      match features ref with
      | Some f => scan popFeatures rest' (S i) (better popFeatures best i f) st
      | None =>
          Suspended st {| t_popFeatures := popFeatures; t_best := best; t_i := i;
                          t_gen := generation st; t_blob := blob ref |}
      end
  end.

(** The call itself: lines 73-79 and the loop up to the first [await]. *)
Definition analyzeAndCompare_begin (st : state) (popBuffer : list float) : outcome :=
  match refSamples st with
  | [] => Finished (setStatus MsgNoReferences st)
  | _ :: _ =>
      let popFeatures := getFeatures popBuffer in
      scan popFeatures (refSamples st) 0 initial_best st
  end.

(** Line 86 on the object held by a suspended match. *)
Definition store_features (f : list float) (ref : refSample) : refSample :=
  {| ref_id := ref_id ref; blob := blob ref; features := Some f;
     extractions := S (extractions ref) |}.

(** Resumption after line 85, the awaited promises being fulfilled, in the
    state [st] of that moment: line 86
    sets [features] on the object of the match (which is still in
    [refSamples] iff no reload happened since), lines 89-92 score it, and
    the loop goes on from [i + 1] over the array [refSamples] as it is
    now. *)
Definition analyzeAndCompare_resume (st : state) (t : task) : outcome :=
  let f := getFeatures (decodeChannel (t_blob t)) in
  let st' :=
    if Nat.eqb (t_gen t) (generation st)
    then set_refSamples (alter (store_features f) (t_i t) (refSamples st)) st
    else st in
  scan (t_popFeatures t) (drop (S (t_i t)) (refSamples st')) (S (t_i t))
       (better (t_popFeatures t) (t_best t) (t_i t) f) st'.

(** A match that is resumed each time before any other callback runs. *)
Fixpoint run_task (fuel : nat) (o : outcome) : outcome :=
  match o with
  | Finished _ => o
  | Suspended st t =>
      match fuel with
      | O => o
      | S fuel' => run_task fuel' (analyzeAndCompare_resume st t)
      end
  end.

(** [analyzeAndCompare] run without interruption: every resumption moves
    the index forward, so [refSamples.length] resumptions are enough. *)
Definition analyzeAndCompare (st : state) (popBuffer : list float) : outcome :=
  run_task (length (refSamples st)) (analyzeAndCompare_begin st popBuffer).

(** ** Event detector: [processor.onaudioprocess] (lines 120-133) *)

(** Lines 122-125. *)
Definition peak (input : list float) : float :=
  fold_left (fun max x => JS.Math_max max (JS.Math_abs x)) input 0.

(** The handler, generic in how the call of line 131 is run. *)
Definition frame_handler (matcher : state -> list float -> outcome)
    (st : state) (input : list float) : outcome :=
  let max := peak input in
  if (0 <? cooldown st)%Z then Finished (set_cooldown (cooldown st - 1) st)
  else if JS.gt max THRESHOLD then matcher st input
  else Finished st.

(** The handler as the browser runs it: it returns when the call of
    [analyzeAndCompare] returns its promise. *)
Definition onaudioprocess_begin : state -> list float -> outcome :=
  frame_handler analyzeAndCompare_begin.

(** The handler with its match run without interruption. *)
Definition onaudioprocess : state -> list float -> outcome :=
  frame_handler analyzeAndCompare.

(** A sequence of frames, each handled to the end before the next. *)
Definition run_frames (st : state) (inputs : list (list float)) : state :=
  fold_left (fun st input => final (onaudioprocess st input)) inputs st.

(** ** Start and stop (lines 106-146) *)

(** [startCounter]; [micOk] tells whether [getUserMedia] resolved. *)
Definition startCounter (micOk : bool) (st : state) : state :=
  if micOk then
    set_toggleText LabelStop (set_running true (setStatus MsgListening st))
  else
    setStatus MsgMicUnavailable st.

Definition stopCounter (st : state) : state :=
  set_toggleText LabelStart (set_running false (setStatus MsgStopped st)).

(** [toggleBtn.onclick] (lines 192-195). *)
Definition toggle_click (micOk : bool) (st : state) : state :=
  if running st then stopCounter st else startCounter micOk st.

(** ** Loading the references (lines 180-184) *)

Definition fresh_ref (r : dbRecord) : refSample :=
  {| ref_id := rec_id r; blob := rec_blob r; features := None; extractions := 0 |}.

Definition loadReferences (refsFromDB : list dbRecord) (st : state) : state :=
  State (counter st) (running st) (cooldown st) (fresh_ref <$> refsFromDB)
        (S (generation st)) (statusText st) (toggleText st).

(** The module-level initialisers (lines 4-17) and [main] (lines 186-190). *)
Definition initial : state :=
  {| counter := 0; running := false; cooldown := 0; refSamples := [];
     generation := 0; statusText := MsgPage; toggleText := LabelStart |}.

Definition main (refsFromDB : list dbRecord) : state :=
  setStatus MsgWelcome (loadReferences refsFromDB initial).

(** ** Runs in which no match overlaps another callback *)

Inductive command :=
  | Frame (input : list float)         (* an audio frame while capturing *)
  | Toggle (micOk : bool)              (* a click on the toggle button *)
  | Reload (refsFromDB : list dbRecord). (* a recording saved, references reloaded *)

Definition exec (st : state) (c : command) : state :=
  match c with
  | Frame input => final (onaudioprocess st input)
  | Toggle micOk => toggle_click micOk st
  | Reload refsFromDB => loadReferences refsFromDB st
  end.

Definition run (refsFromDB : list dbRecord) (cs : list command) : state :=
  fold_left exec cs (main refsFromDB).

(** ** The match as a function of the reference array

    What an uninterrupted match computes, by recursion on the array: the
    vector used for each reference, the references after the match and the
    best match. *)

(** The vector a match uses for [ref]: the cached one, or else the one
    line 86 computes. *)
Definition ref_vector (ref : refSample) : list float :=
  match features ref with
  | Some f => f
  | None => getFeatures (decodeChannel (blob ref))
  end.

(** The reference after a match has used it. *)
Definition cached (ref : refSample) : refSample :=
  match features ref with
  | Some _ => ref
  | None => store_features (getFeatures (decodeChannel (blob ref))) ref
  end.

(** The cache discipline on one reference object: no vector and no
    extraction yet, or the vector of its payload, extracted once. *)
Definition cache_ok (ref : refSample) : Prop :=
  match features ref with
  | None => extractions ref = 0%nat
  | Some f => extractions ref = 1%nat /\ f = getFeatures (decodeChannel (blob ref))
  end.

(** The scores of line 89 in array order. *)
Definition scores (popFeatures : list float) (refs : list refSample) : list float :=
  (fun ref => cosineSimilarity popFeatures (ref_vector ref)) <$> refs.

(** The best-match search over scores, from index [i] on. *)
Fixpoint search (ss : list float) (i : nat) (best : bestMatch) : bestMatch :=
  match ss with
  | [] => best
  | s :: ss' =>
      search ss' (S i)
        (if JS.gt s (score best) then {| score := s; index := Z.of_nat i |} else best)
  end.

(** The best match of a frame against the references of [st]. *)
Definition best_match (st : state) (popBuffer : list float) : bestMatch :=
  search (scores (getFeatures popBuffer) (refSamples st)) 0 initial_best.

End PopCounter.

(** ** A small instance, for the examples

    The transform and the decoder are parameters; the examples run the
    detector with payloads that are their own decoded samples and with the
    buffer itself as its feature vector.  Like any linear transform, this
    one maps silence to a vector of zeros. *)

Definition demo_getFeatures (buffer : list float) : list float := buffer.

Definition demo_decodeChannel (payload : list float) : list float := payload.

(** A loud frame (peak 0.5) and a stored reference equal to it. *)
Definition demo_frame : list float := [0.5; 0.5].

Definition demo_db : list (@dbRecord (list float)) := [DbRecord 1 [0.5; 0.5]].

(** A reference recorded in silence. *)
Definition silent_db : list (@dbRecord (list float)) := [DbRecord 1 [0; 0]].

(** A reference orthogonal to [[0.5; 0]]. *)
Definition other_db : list (@dbRecord (list float)) := [DbRecord 1 [0; 0.5]].

(** ** Measures of a run *)

(** The number of audio frames among the commands of a run. *)
Fixpoint frame_count {Blob : Type} (cs : list (@command Blob)) : Z :=
  match cs with
  | [] => 0
  | Frame _ :: cs' => 1 + frame_count cs'
  | _ :: cs' => frame_count cs'
  end%Z.

(** The records of the last load of a run: those of [main], or of the last
    reload. *)
Fixpoint loaded_db {Blob : Type} (refsFromDB : list (@dbRecord Blob))
    (cs : list (@command Blob)) : list (@dbRecord Blob) :=
  match cs with
  | [] => refsFromDB
  | Reload refsFromDB' :: cs' => loaded_db refsFromDB' cs'
  | _ :: cs' => loaded_db refsFromDB cs'
  end.

(** ** Recording a reference: [handleRefRecord] (lines 149-177) *)

(** Text of [recStatus]. *)
Inductive rec_msg :=
  | RecPage            (* the text of the page before the script sets one *)
  | RecRecording       (* 'Recording...' *)
  | RecMicDenied       (* 'Mic access denied!' *)
  | RecSaved (n : nat) (* `Saved reference #${n}` *)
  | RecCleared.        (* '' *)

(** Text of [recordRefBtn]. *)
Inductive rec_label :=
  | RecLabelPage       (* the text of the page before the script sets one *)
  | RecLabelStop       (* 'Stop Recording' *)
  | RecLabelRecord.    (* 'Record Reference Pop' *)

Section Recorder.

(** A piece of recorded data, as [ondataavailable] delivers it. *)
Context {Chunk Blob : Type}.

(** [new Blob(chunks, { type: 'audio/webm' })]. *)
Variable makeBlob : list Chunk -> Blob.

(** The module-level variables of the recording (lines 14-17) and the two
    texts it writes to the page. *)
Record recorder := Recorder {
  refRecording : bool;
  refAudioChunks : list Chunk;
  recStatus : rec_msg;
  recordBtnText : rec_label
}.

Definition recorder_initial : recorder :=
  {| refRecording := false; refAudioChunks := []; recStatus := RecPage;
     recordBtnText := RecLabelPage |}.

(** [handleRefRecord], run to its end.  [micOk] tells whether
    [getUserMedia], the first statement of the [try] block, resolved; if it
    did not, the [catch] block only sets the message. *)
Definition handleRefRecord (micOk : bool) (r : recorder) : recorder :=
  if negb (refRecording r) then
    if micOk then
      {| refRecording := true; refAudioChunks := []; recStatus := RecRecording;
         recordBtnText := RecLabelStop |}
    else
      {| refRecording := refRecording r; refAudioChunks := refAudioChunks r;
         recStatus := RecMicDenied; recordBtnText := recordBtnText r |}
  else
    {| refRecording := false; refAudioChunks := refAudioChunks r;
       recStatus := recStatus r; recordBtnText := RecLabelRecord |}.

(** [refRecorder.ondataavailable] (line 159). *)
Definition ondataavailable (data : Chunk) (r : recorder) : recorder :=
  {| refRecording := refRecording r; refAudioChunks := refAudioChunks r ++ [data];
     recStatus := recStatus r; recordBtnText := recordBtnText r |}.

(** [refRecorder.onstop] (lines 160-167), run to its end: the blob handed to
    [saveReference], the detector state after [loadReferences] with the
    records [refsFromDB] that [getAllReferences] then returns, and the
    recorder with its message. *)
Definition onstop (refsFromDB : list (@dbRecord Blob)) (st : @state Blob)
    (r : recorder) : Blob * @state Blob * recorder :=
  let blob := makeBlob (refAudioChunks r) in
  let st' := loadReferences refsFromDB st in
  (blob, st',
   {| refRecording := refRecording r; refAudioChunks := refAudioChunks r;
      recStatus := RecSaved (length (refSamples st'));
      recordBtnText := recordBtnText r |}).

(** The callback of [setTimeout] (line 165). *)
Definition clear_recStatus (r : recorder) : recorder :=
  {| refRecording := refRecording r; refAudioChunks := refAudioChunks r;
     recStatus := RecCleared; recordBtnText := recordBtnText r |}.

(** What happens to the recorder, each callback run to its end. *)
Inductive rec_event :=
  | RecClick (micOk : bool)                       (* a click on the record button *)
  | RecData (data : Chunk)                        (* data delivered by the recorder *)
  | RecStopped (refsFromDB : list (@dbRecord Blob)) (* the recorder has stopped *)
  | RecTimer.                                     (* the timer of line 165 fires *)

(** The detector state is that of the moment; [onstop] reads none of it. *)
Definition rec_exec (st : @state Blob) (r : recorder) (e : rec_event) : recorder :=
  match e with
  | RecClick micOk => handleRefRecord micOk r
  | RecData data => ondataavailable data r
  | RecStopped refsFromDB => (onstop refsFromDB st r).2
  | RecTimer => clear_recStatus r
  end.

(** The data delivered by a sequence of events, in order. *)
Fixpoint delivered (es : list rec_event) : list Chunk :=
  match es with
  | [] => []
  | RecData data :: es' => data :: delivered es'
  | _ :: es' => delivered es'
  end.

End Recorder.

(** ** A decode that is rejected

    Line 85 awaits [ref.blob.arrayBuffer()] and [decodeAudioData] outside any
    [try]: if either promise is rejected the [await] throws, the body of
    [analyzeAndCompare] is left at that point and the promise it returned is
    rejected, which the caller (line 131) ignores.  Lines 86 to 102 are not
    run for that match. *)

Section Rejection.

Context {Blob : Type}.
Variable getFeatures : list float -> list float.

(** The decoder with its failure: the samples of channel 0 when both
    promises of line 85 are fulfilled, [None] when one is rejected. *)
Variable decodeAudio : Blob -> option (list float).

(** The decoder of the matches that go on. *)
Definition decoded (payload : Blob) : list float :=
  match decodeAudio payload with
  | Some samples => samples
  | None => []
  end.

(** A reference for which line 85 is reached and fulfilled, or not reached. *)
Definition decodable (ref : @refSample Blob) : Prop :=
  features ref = None -> is_Some (decodeAudio (blob ref)).

(** A reference for which line 85 is reached and rejected. *)
Definition undecodable (ref : @refSample Blob) : Prop :=
  features ref = None /\ decodeAudio (blob ref) = None.

(** How a call of [analyzeAndCompare] ends. *)
Inductive ending :=
  | Fulfilled (st : @state Blob)
      (* the body ran to its end: 'no references', or the decision *)
  | Rejected (st : @state Blob) (t : @task Blob)
      (* the await of line 85 threw in the suspended match [t] *)
  | Pending (st : @state Blob) (t : @task Blob).
      (* not ended within the given number of resumptions *)

(** A match run without interruption to the end of its promise: each
    suspension is followed by the rejection, which ends the match in the
    state of that moment, or by the resumption with the decoded samples. *)
Fixpoint settle (fuel : nat) (o : @outcome Blob) : ending :=
  match o with
  | Finished st => Fulfilled st
  | Suspended st t =>
      match decodeAudio (t_blob t) with
      | None => Rejected st t
      | Some samples =>
          match fuel with
          | O => Pending st t
          | S fuel' =>
              settle fuel'
                (analyzeAndCompare_resume getFeatures (fun _ => samples) st t)
          end
      end
  end.

Definition analyzeAndCompare_settled (st : @state Blob) (popBuffer : list float)
    : ending :=
  settle (length (refSamples st)) (analyzeAndCompare_begin getFeatures st popBuffer).

End Rejection.

(** Payloads for the examples: an empty payload cannot be decoded. *)
Definition demo_decodeAudio (payload : list float) : option (list float) :=
  match payload with
  | [] => None
  | _ :: _ => Some payload
  end.

(** A reference equal to the loud frame, followed by one that cannot be
    decoded. *)
Definition broken_db : list (@dbRecord (list float)) :=
  [DbRecord 1 [0.5; 0.5]; DbRecord 2 []].

(** Three references, the last two equal to the loud frame. *)
Definition tie_db : list (@dbRecord (list float)) :=
  [DbRecord 1 [0.5; 0]; DbRecord 2 [0.5; 0.5]; DbRecord 3 [0.5; 0.5]].

(** * Properties *)

(** ** Binary64 facts, from the specification of the primitive operations *)

Section FloatFacts.

Implicit Types x y d : float.

Lemma Prim2SF_nan_inv x : Prim2SF x = S754_nan -> x = nan.
Proof. intros H. apply Prim2SF_inj. rewrite H. reflexivity. Qed.

Lemma add_nan_l y : nan + y = nan.
Proof. apply Prim2SF_nan_inv. rewrite add_spec. reflexivity. Qed.

Lemma add_nan_r x : x + nan = nan.
Proof.
  apply Prim2SF_nan_inv. rewrite add_spec.
  change (Prim2SF nan) with S754_nan. by destruct (Prim2SF x) as [[]|[]| |].
Qed.

Lemma mul_nan_r x : x * nan = nan.
Proof.
  apply Prim2SF_nan_inv. rewrite mul_spec.
  change (Prim2SF nan) with S754_nan. by destruct (Prim2SF x).
Qed.

Lemma mul_nan_l y : nan * y = nan.
Proof. apply Prim2SF_nan_inv. rewrite mul_spec. reflexivity. Qed.

Lemma div_nan_l y : nan / y = nan.
Proof. apply Prim2SF_nan_inv. rewrite div_spec. reflexivity. Qed.

Lemma div_nan_r x : x / nan = nan.
Proof.
  apply Prim2SF_nan_inv. rewrite div_spec.
  change (Prim2SF nan) with S754_nan. by destruct (Prim2SF x).
Qed.

(** [x == 0] holds of the two zeros only. *)
Lemma is_zero_inv x : (x =? 0) = true -> exists s, Prim2SF x = S754_zero s.
Proof.
  intros H. rewrite FloatAxioms.eqb_spec in H. change (Prim2SF 0) with (S754_zero false) in H.
  destruct (Prim2SF x) as [s|[]| |[] m e]; try discriminate. by exists s.
Qed.

(** A product with a zero factor is a zero or NaN. *)
Lemma mul_zero_l x y s :
  Prim2SF x = S754_zero s ->
  (exists s', Prim2SF (x * y) = S754_zero s') \/ x * y = nan.
Proof.
  intros Hx. destruct (Prim2SF y) as [sy|sy| |sy m e] eqn:Hy.
  - left. exists (xorb s sy). by rewrite mul_spec, Hx, Hy.
  - right. apply Prim2SF_nan_inv. by rewrite mul_spec, Hx, Hy.
  - right. apply Prim2SF_nan_inv. by rewrite mul_spec, Hx, Hy.
  - left. exists (xorb s sy). by rewrite mul_spec, Hx, Hy.
Qed.

Lemma mul_zero_r x y s :
  Prim2SF y = S754_zero s ->
  (exists s', Prim2SF (x * y) = S754_zero s') \/ x * y = nan.
Proof.
  intros Hy. destruct (Prim2SF x) as [sx|sx| |sx m e] eqn:Hx.
  - left. exists (xorb sx s). by rewrite mul_spec, Hx, Hy.
  - right. apply Prim2SF_nan_inv. by rewrite mul_spec, Hx, Hy.
  - right. apply Prim2SF_nan_inv. by rewrite mul_spec, Hx, Hy.
  - left. exists (xorb sx s). by rewrite mul_spec, Hx, Hy.
Qed.

(** Dividing by a zero gives NaN or an infinity, never a finite number. *)
Lemma div_by_zero_not_finite x d s :
  Prim2SF d = S754_zero s -> JS.isFinite (x / d) = false.
Proof.
  intros Hd. unfold JS.isFinite. rewrite classify_spec, div_spec, Hd.
  by destruct (Prim2SF x) as [sx|sx| |sx m e]; simpl; try destruct (xorb sx s).
Qed.

(** Dividing [+0] by a zero gives NaN. *)
Lemma zero_div_zero x d s s' :
  Prim2SF x = S754_zero s -> Prim2SF d = S754_zero s' -> x / d = nan.
Proof.
  intros Hx Hd. apply Prim2SF_nan_inv. by rewrite div_spec, Hx, Hd.
Qed.

(** The running sums of a loop over zero terms: [+0], or NaN. *)
Lemma add_pzero_zero x y s :
  Prim2SF x = S754_zero false -> Prim2SF y = S754_zero s ->
  Prim2SF (x + y) = S754_zero false.
Proof. intros Hx Hy. rewrite add_spec, Hx, Hy. by destruct s. Qed.

Lemma sqrt_zero x s : Prim2SF x = S754_zero s -> Prim2SF (sqrt x) = S754_zero s.
Proof. intros Hx. by rewrite sqrt_spec, Hx. Qed.

(** Comparisons through the rank. *)

(** One case of the comparison: its result is known, and both sides of the
    two equivalences are decided by linear arithmetic on the ranks. *)
Ltac rank_case :=
  eexists; split; [reflexivity|]; unfold lex_lt; simpl;
  split; split; intros; (discriminate || lia || done).

Lemma SFcompare_rank (a b : spec_float) :
  a <> S754_nan -> b <> S754_nan ->
  exists c, SFcompare a b = Some c /\
    (c = Lt <-> lex_lt (SFrank a) (SFrank b)) /\
    (c = Gt <-> lex_lt (SFrank b) (SFrank a)).
Proof.
  intros Ha Hb.
  destruct a as [sa|sa| |sa ma ea], b as [sb|sb| |sb mb eb]; try done;
    try (destruct sa); try (destruct sb); simpl; try rank_case.
  all: change (Pcompare ma mb Eq) with (Pos.compare ma mb).
  all: destruct (Z.compare_spec ea eb), (Pos.compare_spec ma mb); simpl; rank_case.
Qed.

Lemma SFcompare_nan (a b : spec_float) :
  SFcompare a b = None <-> a = S754_nan \/ b = S754_nan.
Proof.
  split.
  - intros H. destruct a as [| | |], b as [| | |]; (by left) || (by right) || done.
  - intros [-> | ->]; [done|]. by destruct a.
Qed.

Lemma ltb_rank x y :
  (x <? y) = true <->
  Prim2SF x <> S754_nan /\ Prim2SF y <> S754_nan /\
  lex_lt (SFrank (Prim2SF x)) (SFrank (Prim2SF y)).
Proof.
  rewrite FloatAxioms.ltb_spec. unfold SFltb. split.
  - intros H. destruct (SFcompare (Prim2SF x) (Prim2SF y)) as [c|] eqn:Hc; [|done].
    assert (Prim2SF x <> S754_nan /\ Prim2SF y <> S754_nan) as [Hx Hy].
    { split; intros E; assert (SFcompare (Prim2SF x) (Prim2SF y) = None) as E'
        by (apply SFcompare_nan; auto); congruence. }
    destruct (SFcompare_rank _ _ Hx Hy) as (c' & Hc' & Hlt & _).
    assert (c' = c) as -> by congruence.
    split_and!; [done..|]. apply Hlt. by destruct c.
  - intros (Hx & Hy & Hr).
    destruct (SFcompare_rank _ _ Hx Hy) as (c & -> & Hlt & _).
    apply Hlt in Hr. by subst.
Qed.

Lemma leb_rank x y :
  (x <=? y) = true <->
  Prim2SF x <> S754_nan /\ Prim2SF y <> S754_nan /\
  ~ lex_lt (SFrank (Prim2SF y)) (SFrank (Prim2SF x)).
Proof.
  rewrite FloatAxioms.leb_spec. unfold SFleb. split.
  - intros H. destruct (SFcompare (Prim2SF x) (Prim2SF y)) as [c|] eqn:Hc; [|done].
    assert (Prim2SF x <> S754_nan /\ Prim2SF y <> S754_nan) as [Hx Hy].
    { split; intros E; assert (SFcompare (Prim2SF x) (Prim2SF y) = None) as E'
        by (apply SFcompare_nan; auto); congruence. }
    destruct (SFcompare_rank _ _ Hx Hy) as (c' & Hc' & _ & Hgt).
    assert (c' = c) as -> by congruence.
    split_and!; [done..|]. intros Hr. apply Hgt in Hr. by subst.
  - intros (Hx & Hy & Hr).
    destruct (SFcompare_rank _ _ Hx Hy) as (c & -> & _ & Hgt).
    destruct c; [done..|]. destruct Hr. by apply Hgt.
Qed.

Lemma lex_lt_irrefl a : ~ lex_lt a a.
Proof. unfold lex_lt. lia. Qed.

Lemma lex_lt_trans a b c : lex_lt a b -> lex_lt b c -> lex_lt a c.
Proof. unfold lex_lt. lia. Qed.

(** [x > x] never holds. *)
Lemma ltb_irrefl x : (x <? x) = false.
Proof.
  apply not_true_is_false. intros (_ & _ & H)%ltb_rank. by apply lex_lt_irrefl in H.
Qed.

Lemma ltb_trans x y z : (x <? y) = true -> (y <? z) = true -> (x <? z) = true.
Proof.
  intros (Hx & _ & H1)%ltb_rank (_ & Hz & H2)%ltb_rank. apply ltb_rank.
  split_and!; [done..|]. by eapply lex_lt_trans.
Qed.

(** [x < y] excludes [y <= x]. *)
Lemma ltb_not_leb x y : (x <? y) = true -> (y <=? x) = false.
Proof.
  intros (_ & _ & H1)%ltb_rank. apply not_true_is_false.
  intros (_ & _ & H2)%leb_rank. done.
Qed.

(** If [x] does not exceed [b] and [y] does, then [y] is not
    below or equal to [x]. *)
Lemma ltb_false_true_not_leb b x y :
  (b <? x) = false -> (b <? y) = true -> (y <=? x) = false.
Proof.
  intros Hbx (Hb & Hy & H1)%ltb_rank. apply not_true_is_false.
  intros (_ & Hx & H2)%leb_rank.
  apply not_true_iff_false in Hbx. apply Hbx, ltb_rank. split_and!; [done..|].
  revert H1 H2. unfold lex_lt. lia.
Qed.

Lemma not_leb_not_ltb x y : (y <=? x) = false -> (y <? x) = false.
Proof.
  intros H. apply not_true_is_false. intros (Hy & Hx & H1)%ltb_rank.
  apply not_true_iff_false in H. apply H, leb_rank. split_and!; [done..|].
  revert H1. unfold lex_lt. lia.
Qed.

Lemma eqb_leb x y : (x =? y) = true -> (y <=? x) = true.
Proof.
  rewrite FloatAxioms.eqb_spec, FloatAxioms.leb_spec. unfold SFeqb, SFleb.
  destruct (Prim2SF x) as [sx|sx| |sx mx ex], (Prim2SF y) as [sy|sy| |sy my ey];
    try done; try (destruct sx); try (destruct sy); simpl; try done.
  all: change (Pcompare mx my Eq) with (Pos.compare mx my);
       change (Pcompare my mx Eq) with (Pos.compare my mx).
  all: rewrite (Z.compare_antisym ex ey), (Pos.compare_antisym mx my).
  all: by destruct (ex ?= ey)%Z, (mx ?= my)%positive.
Qed.

Lemma not_leb_not_eqb x y : (y <=? x) = false -> (x =? y) = false.
Proof.
  intros H. apply not_true_is_false. intros E%eqb_leb. congruence.
Qed.

End FloatFacts.

(** ** The similarity scorer *)

Section Scorer.

Implicit Types vecA vecB v : list float.

Lemma fold_left_agree {A B} (f g : A -> B -> A) (l : list B) (a : A) :
  (forall a x, x ∈ l -> f a x = g a x) -> fold_left f l a = fold_left g l a.
Proof.
  revert a. induction l as [|x l IH]; intros a H; simpl; [done|].
  rewrite H by left. apply IH. intros. apply H. by right.
Qed.

Lemma index_lookup v i x : v !! i = Some x -> JS.index v i = x.
Proof. unfold JS.index. by intros ->. Qed.

Lemma index_past_end v i : length v <= i -> JS.index v i = nan.
Proof. intros H. unfold JS.index. by rewrite lookup_ge_None_2. Qed.

Lemma index_take v n i : i < n -> JS.index (take n v) i = JS.index v i.
Proof. intros H. unfold JS.index. by rewrite lookup_take_lt. Qed.

(** The loop only reads [vecB] below [vecA.length]. *)
Lemma cosine_sums_take vecA vecB :
  cosine_sums vecA (take (length vecA) vecB) = cosine_sums vecA vecB.
Proof.
  unfold cosine_sums. apply fold_left_agree. intros s i Hi.
  apply elem_of_seq in Hi. unfold cosine_body.
  rewrite index_take by lia. done.
Qed.

(** The two sums of squares, as sums over the vectors themselves. *)
Lemma magA_fold vecA vecB n : forall k s,
  k + n <= length vecA ->
  magA (fold_left (cosine_body vecA vecB) (seq k n) s)
  = fold_left (fun acc x => acc + x * x) (take n (drop k vecA)) (magA s).
Proof.
  induction n as [|n IH]; intros k s Hk; simpl; [done|].
  destruct (lookup_lt_is_Some_2 vecA k) as [x Hx]; [lia|].
  rewrite (drop_S _ _ _ Hx). simpl. rewrite IH by lia.
  simpl. by rewrite (index_lookup _ _ _ Hx).
Qed.

Lemma magB_fold vecA vecB n : forall k s,
  k + n <= length vecB ->
  magB (fold_left (cosine_body vecA vecB) (seq k n) s)
  = fold_left (fun acc x => acc + x * x) (take n (drop k vecB)) (magB s).
Proof.
  induction n as [|n IH]; intros k s Hk; simpl; [done|].
  destruct (lookup_lt_is_Some_2 vecB k) as [x Hx]; [lia|].
  rewrite (drop_S _ _ _ Hx). simpl. rewrite IH by lia.
  simpl. by rewrite (index_lookup _ _ _ Hx).
Qed.

Lemma magA_sums vecA vecB : magA (cosine_sums vecA vecB) = sum_squares vecA.
Proof.
  unfold cosine_sums. rewrite magA_fold by (simpl; lia).
  by rewrite drop_0, firstn_all.
Qed.

Lemma magB_sums vecA vecB :
  length vecA = length vecB -> magB (cosine_sums vecA vecB) = sum_squares vecB.
Proof.
  intros Hlen. unfold cosine_sums. rewrite magB_fold by (simpl; lia).
  by rewrite drop_0, Hlen, firstn_all.
Qed.

(** Once NaN, the dot product stays NaN. *)
Lemma dot_nan_stays vecA vecB (l : list nat) : forall s,
  dotProduct s = nan -> dotProduct (fold_left (cosine_body vecA vecB) l s) = nan.
Proof.
  induction l as [|i l IH]; intros s Hs; simpl; [done|].
  apply IH. simpl. rewrite Hs. apply add_nan_l.
Qed.

(** An index past the end of [vecB] makes it NaN. *)
Lemma dot_nan_past_end vecA vecB (l : list nat) i : forall s,
  length vecB <= i -> i ∈ l ->
  dotProduct (fold_left (cosine_body vecA vecB) l s) = nan.
Proof.
  induction l as [|j l IH]; intros s Hi Hin; [by apply elem_of_nil in Hin|].
  simpl. apply elem_of_cons in Hin as [->|Hin]; [|by apply IH].
  apply dot_nan_stays. simpl.
  rewrite (index_past_end vecB) by done. by rewrite mul_nan_r, add_nan_r.
Qed.

(** The sums for a vector of zeros: the dot product is [+0] or NaN, the
    sum of squares is [+0]. *)
Lemma pzero_or_nan_add x y :
  pzero_or_nan x -> (exists s, Prim2SF y = S754_zero s) \/ y = nan ->
  pzero_or_nan (x + y).
Proof.
  intros [Hx| ->] Hy; [|right; apply add_nan_l].
  destruct Hy as [[s Hy]| ->]; [|right; apply add_nan_r].
  left. by eapply add_pzero_zero.
Qed.

Lemma sums_zeros_A vecA vecB n : forall k s,
  all_zero vecA ->
  k + n <= length vecA ->
  pzero_or_nan (dotProduct s) -> Prim2SF (magA s) = S754_zero false ->
  let r := fold_left (cosine_body vecA vecB) (seq k n) s in
  pzero_or_nan (dotProduct r) /\ Prim2SF (magA r) = S754_zero false.
Proof.
  induction n as [|n IH]; intros k s Hz Hk Hd Hm; simpl; [done|].
  destruct (lookup_lt_is_Some_2 vecA k) as [x Hx]; [lia|].
  assert (exists sx, Prim2SF x = S754_zero sx) as [sx Hsx].
  { apply is_zero_inv. unfold all_zero in Hz. rewrite Forall_forall in Hz. apply Hz.
    eapply list_elem_of_lookup_2, Hx. }
  apply IH; [done|lia| |]; simpl; rewrite (index_lookup _ _ _ Hx).
  - apply pzero_or_nan_add; [done|]. by eapply mul_zero_l.
  - eapply add_pzero_zero; [done|]. rewrite mul_spec, Hsx. simpl. done.
Qed.

Lemma sums_zeros_B vecA vecB n : forall k s,
  all_zero vecB ->
  k + n <= length vecB ->
  pzero_or_nan (dotProduct s) -> Prim2SF (magB s) = S754_zero false ->
  let r := fold_left (cosine_body vecA vecB) (seq k n) s in
  pzero_or_nan (dotProduct r) /\ Prim2SF (magB r) = S754_zero false.
Proof.
  induction n as [|n IH]; intros k s Hz Hk Hd Hm; simpl; [done|].
  destruct (lookup_lt_is_Some_2 vecB k) as [x Hx]; [lia|].
  assert (exists sx, Prim2SF x = S754_zero sx) as [sx Hsx].
  { apply is_zero_inv. unfold all_zero in Hz. rewrite Forall_forall in Hz. apply Hz.
    eapply list_elem_of_lookup_2, Hx. }
  apply IH; [done|lia| |]; simpl; rewrite (index_lookup _ _ _ Hx).
  - apply pzero_or_nan_add; [done|]. by eapply mul_zero_r.
  - eapply add_pzero_zero; [done|]. rewrite mul_spec, Hsx. simpl. done.
Qed.

(** [+0] or NaN divided by a zero or NaN is NaN. *)
Lemma pzero_or_nan_div x d :
  pzero_or_nan x -> (exists s, Prim2SF d = S754_zero s) \/ d = nan ->
  x / d = nan.
Proof.
  intros [Hx| ->] Hd; [|apply div_nan_l].
  destruct Hd as [[s Hd]| ->]; [|apply div_nan_r].
  by eapply zero_div_zero.
Qed.

Lemma not_finite_div x d :
  (exists s, Prim2SF d = S754_zero s) \/ d = nan -> JS.isFinite (x / d) = false.
Proof.
  intros [[s Hd]| ->]; [by eapply div_by_zero_not_finite|].
  by rewrite div_nan_r.
Qed.

End Scorer.

(** C2, as the code has it.  For equal-length vectors of which either has
    zero magnitude, [cosineSimilarity] divides by the product of the
    magnitudes all the same: the divisor is a zero or NaN and the result is
    never a finite number (NaN or an infinity).  When either vector consists
    of zeros only, the result is NaN. *)
Theorem cosineSimilarity_zero_magnitude (vecA vecB : list float) :
  length vecA = length vecB ->
  ((magnitude vecA =? 0) = true \/ (magnitude vecB =? 0) = true ->
   JS.isFinite (cosineSimilarity vecA vecB) = false) /\
  (all_zero vecA \/ all_zero vecB -> cosineSimilarity vecA vecB = nan).
Proof.
  intros Hlen. unfold cosineSimilarity. split.
  - intros Hz. apply not_finite_div.
    rewrite magA_sums, (magB_sums _ _ Hlen). fold (magnitude vecA) (magnitude vecB).
    destruct Hz as [[s Hs]%is_zero_inv|[s Hs]%is_zero_inv].
    + by eapply mul_zero_l.
    + by eapply mul_zero_r.
  - intros [Hz|Hz].
    + destruct (sums_zeros_A vecA vecB (length vecA) 0 (Sums 0 0 0)) as [Hd Hm];
        [done|simpl; lia|by left|done|].
      fold (cosine_sums vecA vecB) in Hd, Hm.
      apply pzero_or_nan_div; [done|].
      eapply mul_zero_l, sqrt_zero, Hm.
    + destruct (sums_zeros_B vecA vecB (length vecA) 0 (Sums 0 0 0)) as [Hd Hm];
        [done|simpl; lia|by left|done|].
      fold (cosine_sums vecA vecB) in Hd, Hm.
      apply pzero_or_nan_div; [done|].
      eapply mul_zero_r, sqrt_zero, Hm.
Qed.

Lemma cosineSimilarity_zero_magnitude_witness :
  length [0; 0] = length [1; 2] /\
  JS.isFinite (cosineSimilarity [0; 0] [1; 2]) = false /\
  cosineSimilarity [0; 0] [1; 2] = nan.
Proof.
  split; [reflexivity|].
  destruct (cosineSimilarity_zero_magnitude [0; 0] [1; 2]) as [H1 H2]; [reflexivity|].
  split.
  - apply H1. left. reflexivity.
  - apply H2. left. repeat constructor.
Defined.

(** C2 as stated fails: a silent vector scores NaN, not [0], and a vector
    whose squares underflow to zero scores [+Infinity]; the division by
    zero is performed, and there is no single value marking the case. *)
#[warnings="-inexact-float"]
Lemma cosineSimilarity_no_sentinel :
  (magnitude [0; 0] =? 0) = true /\
  cosineSimilarity [0; 0] [1; 2] = nan /\
  (cosineSimilarity [0; 0] [1; 2] =? 0) = false /\
  (magnitude [1e-200] =? 0) = true /\
  cosineSimilarity [1e-200] [1] = infinity.
Proof. repeat split; reflexivity. Qed.

(** C6, as the code has it.  [cosineSimilarity] does not reject vectors of
    different lengths; it returns a number.  The loop runs over the indices
    of [vecA]: the entries of a longer [vecB] past them are ignored, the
    score being that of [vecB] cut to the length of [vecA]; a shorter
    [vecB] reads as [undefined] past its end and the score is NaN. *)
Theorem cosineSimilarity_length_mismatch (vecA vecB : list float) :
  length vecA <> length vecB ->
  (length vecA < length vecB /\
   cosineSimilarity vecA vecB = cosineSimilarity vecA (take (length vecA) vecB)) \/
  (length vecB < length vecA /\ cosineSimilarity vecA vecB = nan).
Proof.
  intros Hne. destruct (decide (length vecA < length vecB)) as [Hlt|Hge].
  - left. split; [done|]. unfold cosineSimilarity. by rewrite cosine_sums_take.
  - right. split; [lia|]. unfold cosineSimilarity, cosine_sums.
    rewrite (dot_nan_past_end vecA vecB _ (length vecB)).
    + apply div_nan_l.
    + done.
    + apply elem_of_seq. lia.
Qed.

Lemma cosineSimilarity_length_mismatch_witness :
  length [3; 4] <> length [3; 4; 100] /\
  ((length [3; 4] < length [3; 4; 100] /\
    cosineSimilarity [3; 4] [3; 4; 100]
    = cosineSimilarity [3; 4] (take (length [3; 4]) [3; 4; 100])) \/
   (length [3; 4; 100] < length [3; 4] /\ cosineSimilarity [3; 4] [3; 4; 100] = nan)).
Proof.
  split; [simpl; lia|].
  apply (cosineSimilarity_length_mismatch [3; 4] [3; 4; 100]). simpl. lia.
Defined.

(** C6 as stated fails: with a longer second vector the scorer returns the
    perfect score of the truncated vector, and with a shorter one it returns
    NaN; neither call fails. *)
Lemma cosineSimilarity_mismatch_returns :
  length [3; 4] <> length [3; 4; 100] /\
  cosineSimilarity [3; 4] [3; 4; 100] = 1 /\
  cosineSimilarity [3; 4] [3; 4] = 1 /\
  length [3; 4] <> length [3] /\
  cosineSimilarity [3; 4] [3] = nan.
Proof. repeat split; (reflexivity || (simpl; lia)). Qed.

(** ** The match engine *)

Section Engine.

Context {Blob : Type}.
Variable getFeatures : list float -> list float.
Variable decodeChannel : Blob -> list float.

Implicit Types (st : @state Blob) (ref : @refSample Blob).
Implicit Types (refs rest pre : list (@refSample Blob)).
Implicit Types (best : bestMatch) (popFeatures popBuffer input : list float).

Lemma set_refSamples_same st : set_refSamples (refSamples st) st = st.
Proof. by destruct st. Qed.

Lemma run_task_finished fuel st :
  run_task getFeatures decodeChannel fuel (Finished st) = Finished st.
Proof. by destruct fuel. Qed.

Lemma search_cons popFeatures ref rest i best :
  search (scores getFeatures decodeChannel popFeatures (ref :: rest)) i best
  = search (scores getFeatures decodeChannel popFeatures rest) (S i)
      (better popFeatures best i (ref_vector getFeatures decodeChannel ref)).
Proof. reflexivity. Qed.

(** An uninterrupted match from index [length pre] on: it finishes, every
    reference from there on carries its vector afterwards, and the decision
    is taken on the result of the search over the scores. *)
Lemma run_task_scan popFeatures rest : forall pre best st fuel,
  refSamples st = pre ++ rest ->
  length rest <= fuel ->
  run_task getFeatures decodeChannel fuel (scan popFeatures rest (length pre) best st)
  = Finished
      (verdict
         (search (scores getFeatures decodeChannel popFeatures rest) (length pre) best)
         (set_refSamples (pre ++ (cached getFeatures decodeChannel <$> rest)) st)).
Proof.
  induction rest as [|ref rest IH]; intros pre best st fuel Hrefs Hfuel.
  - simpl. rewrite run_task_finished. rewrite app_nil_r in *.
    by rewrite <- Hrefs, set_refSamples_same.
  - rewrite search_cons, fmap_cons. unfold cached at 1, ref_vector. simpl scan.
    destruct (features ref) as [f|] eqn:Hf.
    + specialize (IH (pre ++ [ref]) (better popFeatures best (length pre) f) st fuel).
      rewrite length_app, Nat.add_1_r, <- !app_assoc in IH.
      apply IH; [done|simpl in Hfuel; lia].
    + destruct fuel as [|fuel]; [simpl in Hfuel; lia|]. simpl run_task.
      unfold analyzeAndCompare_resume. simpl. rewrite Nat.eqb_refl. simpl.
      set (f := getFeatures (decodeChannel (blob ref))).
      rewrite Hrefs.
      replace (alter (store_features f) (length pre) (pre ++ ref :: rest))
        with (pre ++ store_features f ref :: rest)
        by (by rewrite <- (Nat.add_0_r (length pre)), alter_app_r).
      change (ref :: rest) with ([ref] ++ rest) in Hrefs.
      replace (drop (S (length pre)) (pre ++ store_features f ref :: rest)) with rest.
      2:{ change (store_features f ref :: rest) with ([store_features f ref] ++ rest).
          rewrite app_assoc. symmetry. apply drop_app_length'.
          by rewrite length_app, Nat.add_1_r. }
      specialize (IH (pre ++ [store_features f ref])
                    (better popFeatures best (length pre) f)
                    (set_refSamples (pre ++ store_features f ref :: rest) st) fuel).
      rewrite length_app, Nat.add_1_r, <- !app_assoc in IH.
      rewrite IH; [done| |simpl in Hfuel; lia].
      by destruct st.
Qed.

(** Whatever ran between its suspensions, a match that finishes does so by
    the decision of lines 95-102, taken in the state of that moment. *)
Lemma scan_finished popFeatures rest : forall i best st st',
  scan popFeatures rest i best st = Finished st' ->
  exists best', st' = verdict best' st.
Proof.
  induction rest as [|ref rest IH]; intros i best st st' H; simpl in H.
  - injection H as <-. by exists best.
  - destruct (features ref); [by eapply IH|done].
Qed.

Lemma resume_finished st t st' :
  analyzeAndCompare_resume getFeatures decodeChannel st t = Finished st' ->
  exists best' st0,
    st' = verdict best' st0 /\ counter st0 = counter st /\ cooldown st0 = cooldown st.
Proof.
  unfold analyzeAndCompare_resume. intros [best' ->]%scan_finished.
  eexists best', _. split; [done|]. by destruct (t_gen t =? generation st)%nat.
Qed.

(** [analyzeAndCompare] always finishes, in the state given by the search
    over the scores. *)
Lemma analyzeAndCompare_result st popBuffer :
  analyzeAndCompare getFeatures decodeChannel st popBuffer
  = Finished
      match refSamples st with
      | [] => setStatus MsgNoReferences st
      | _ :: _ =>
          verdict (best_match getFeatures decodeChannel st popBuffer)
            (set_refSamples (cached getFeatures decodeChannel <$> refSamples st) st)
      end.
Proof.
  unfold analyzeAndCompare, analyzeAndCompare_begin, best_match.
  destruct (refSamples st) as [|ref refs] eqn:Hrefs; [done|].
  by rewrite (run_task_scan _ (ref :: refs) [] initial_best st).
Qed.

(** The search keeps the first among the largest scores that exceed the
    initial best, and the initial best if no score exceeds it. *)
Lemma search_spec (ss : list float) : forall i0 b0,
  (search ss i0 b0 = b0 /\ forall j s, ss !! j = Some s -> JS.gt s (score b0) = false) \/
  (exists k, ss !! k = Some (score (search ss i0 b0)) /\
     index (search ss i0 b0) = Z.of_nat (i0 + k) /\
     JS.gt (score (search ss i0 b0)) (score b0) = true /\
     (forall j s, ss !! j = Some s -> JS.gt s (score (search ss i0 b0)) = false) /\
     (forall j s, j < k -> ss !! j = Some s -> (score (search ss i0 b0) <=? s) = false)).
Proof.
  unfold JS.gt. induction ss as [|s ss IH]; intros i0 b0; simpl.
  { left. split; [done|]. intros j s Hj. by rewrite lookup_nil in Hj. }
  unfold JS.gt. destruct (score b0 <? s) eqn:Hs.
  - destruct (IH (S i0) {| score := s; index := Z.of_nat i0 |})
      as [[Hr Hall]|(k & Hk & Hi & Hgt & Hmax & Hfirst)]; simpl in *; right.
    + rewrite Hr. exists 0%nat. split_and!; simpl; try done.
      * f_equal. lia.
      * intros [|j] s' Hj; simpl in Hj; [|by eauto].
        injection Hj as <-. apply ltb_irrefl.
      * intros j s' Hlt. lia.
    + exists (S k). split_and!; simpl; try done.
      * rewrite Hi. f_equal. lia.
      * by eapply ltb_trans.
      * intros [|j] s' Hj; simpl in Hj; [|by eauto].
        injection Hj as <-. by apply not_leb_not_ltb, ltb_not_leb.
      * intros [|j] s' Hlt Hj; simpl in Hj; [|apply (Hfirst j); [lia|done]].
        injection Hj as <-. by apply ltb_not_leb.
  - destruct (IH (S i0) b0)
      as [[Hr Hall]|(k & Hk & Hi & Hgt & Hmax & Hfirst)]; simpl in *.
    + left. split; [done|]. intros [|j] s' Hj; simpl in Hj; [|by eauto].
      by injection Hj as <-.
    + right. exists (S k). split_and!; simpl; try done.
      * rewrite Hi. f_equal. lia.
      * intros [|j] s' Hj; simpl in Hj; [|by eauto].
        injection Hj as <-. by eapply not_leb_not_ltb, ltb_false_true_not_leb.
      * intros [|j] s' Hlt Hj; simpl in Hj; [|apply (Hfirst j); [lia|done]].
        injection Hj as <-. by eapply ltb_false_true_not_leb.
Qed.

(** The decision of a match whose decodes are fulfilled.  With a non-empty
    reference array such a match finishes;
    it reports an accepted match exactly when the best score is strictly
    above [SIMILARITY_THRESHOLD] (0.95), naming the best index and score in
    either report; and when it accepts, the counter has grown by exactly one
    and the cooldown is [COOLDOWN_FRAMES] (10). *)
Theorem analyzeAndCompare_accept st popBuffer :
  refSamples st <> [] ->
  let o := analyzeAndCompare getFeatures decodeChannel st popBuffer in
  let best := best_match getFeatures decodeChannel st popBuffer in
  finished o = true /\
  is_accept (statusText (final o)) = JS.gt (score best) SIMILARITY_THRESHOLD /\
  (JS.gt (score best) SIMILARITY_THRESHOLD = true ->
   statusText (final o) = MsgMatched (index best) (score best) /\
   counter (final o) = (counter st + 1)%Z /\
   cooldown (final o) = COOLDOWN_FRAMES /\
   COOLDOWN_FRAMES = 10%Z) /\
  (JS.gt (score best) SIMILARITY_THRESHOLD = false ->
   statusText (final o) = MsgNoMatch (index best) (score best)).
Proof.
  intros Hne o best. subst o. rewrite analyzeAndCompare_result.
  destruct (refSamples st) as [|ref refs] eqn:Hrefs; [done|].
  fold best. unfold verdict. simpl.
  destruct (JS.gt (score best) SIMILARITY_THRESHOLD); simpl; by split_and!.
Qed.

(** C5.  With an empty reference array the match finishes at once: it sets
    the "no references" message and changes nothing else, so the counter and
    the cooldown are as before. *)
Theorem analyzeAndCompare_no_references st popBuffer :
  refSamples st = [] ->
  let o := analyzeAndCompare getFeatures decodeChannel st popBuffer in
  o = Finished (setStatus MsgNoReferences st) /\
  analyzeAndCompare_begin getFeatures st popBuffer = o /\
  statusText (final o) = MsgNoReferences /\
  counter (final o) = counter st /\
  cooldown (final o) = cooldown st /\
  refSamples (final o) = refSamples st.
Proof.
  intros Hrefs o. subst o. rewrite analyzeAndCompare_result.
  unfold analyzeAndCompare_begin. rewrite Hrefs. by split_and!.
Qed.

(** The search of a match whose decodes are fulfilled.  When at least one
    score exceeds the initial
    best score [-1], the search returns the index of a reference and its
    score; no score exceeds it, and every earlier score is strictly lower or
    NaN, so that among equal largest scores the first index is kept.  The
    report of the match names this index and score. *)
Theorem best_match_first_maximum st popBuffer :
  let ss := scores getFeatures decodeChannel (getFeatures popBuffer) (refSamples st) in
  let best := best_match getFeatures decodeChannel st popBuffer in
  let o := analyzeAndCompare getFeatures decodeChannel st popBuffer in
  (exists j s, ss !! j = Some s /\ JS.gt s (-1) = true) ->
  (exists i, i < length (refSamples st) /\
     index best = Z.of_nat i /\
     ss !! i = Some (score best) /\
     (forall j s, ss !! j = Some s -> JS.gt s (score best) = false) /\
     (forall j s, j < i -> ss !! j = Some s ->
        (score best <=? s) = false /\ (s =? score best) = false)) /\
  (statusText (final o) = MsgMatched (index best) (score best) \/
   statusText (final o) = MsgNoMatch (index best) (score best)).
Proof.
  intros ss best o (j & s & Hj & Hgt). split.
  - destruct (search_spec ss 0 initial_best)
      as [[_ Hall]|(k & Hk & Hi & _ & Hmax & Hfirst)].
    { apply Hall in Hj. simpl in Hj. congruence. }
    fold ss in best. change (search ss 0 initial_best) with best in *.
    exists k. split_and!; try done.
    + apply lookup_lt_Some in Hk. unfold ss, scores in Hk.
      by rewrite length_fmap in Hk.
    + intros j' s' Hlt Hj'. split; [by eapply Hfirst|].
      eapply not_leb_not_eqb, Hfirst; done.
  - subst o. rewrite analyzeAndCompare_result.
    destruct (refSamples st) as [|ref refs] eqn:Hrefs.
    { clear -Hj Hrefs. subst ss. try rewrite Hrefs in Hj. done. }
    fold best. unfold verdict.
    destruct (JS.gt (score best) SIMILARITY_THRESHOLD); [by left|by right].
Qed.

(** C10.  The index of the best match is the index of a reference exactly
    when some score strictly exceeds the initial score [-1]; when no score
    does (each is at most [-1], or NaN), the best match is still the initial
    [{ score: -1, index: -1 }], and this is what the match reports, as a
    rejection. *)
Theorem best_match_index_sentinel st popBuffer :
  let ss := scores getFeatures decodeChannel (getFeatures popBuffer) (refSamples st) in
  let best := best_match getFeatures decodeChannel st popBuffer in
  ((0 <= index best < Z.of_nat (length (refSamples st)))%Z <->
   exists j s, ss !! j = Some s /\ JS.gt s (-1) = true) /\
  ((forall j s, ss !! j = Some s -> JS.gt s (-1) = false) ->
   index best = (-1)%Z /\ score best = -1 /\
   (refSamples st <> [] ->
    analyzeAndCompare getFeatures decodeChannel st popBuffer
    = Finished (setStatus (MsgNoMatch (-1) (-1))
                  (set_refSamples (cached getFeatures decodeChannel <$> refSamples st)
                     st)))).
Proof.
  intros ss best.
  destruct (search_spec ss 0 initial_best)
    as [[Hr Hall]|(k & Hk & Hi & Hgt & _)];
    fold ss in best; change (search ss 0 initial_best) with best in *.
  - rewrite Hr. simpl. split; [split|].
    + lia.
    + intros (j & s & Hj & Hgt). apply Hall in Hj. simpl in Hj. congruence.
    + intros _. split_and!; [done..|]. intros Hne.
      rewrite analyzeAndCompare_result.
      destruct (refSamples st) as [|ref refs] eqn:Hrefs; [done|].
      fold best. by rewrite Hr.
  - assert (k < length (refSamples st)) as Hlt.
    { apply lookup_lt_Some in Hk. unfold ss, scores in Hk.
      by rewrite length_fmap in Hk. }
    split; [split|].
    + intros _. by exists k, (score best).
    + intros _. simpl in Hi. lia.
    + intros Hall. apply Hall in Hk. simpl in Hgt. congruence.
Qed.

(** C8.  A match that ends without acceptance (no references, or a best
    score not strictly above the threshold) leaves the counter, the cooldown
    and [running] as they were; the frame that triggered it saw no cooldown,
    so the next loud frame is matched again. *)
Theorem analyzeAndCompare_reject_keeps_state st popBuffer :
  refSamples st = [] \/
  JS.gt (score (best_match getFeatures decodeChannel st popBuffer))
        SIMILARITY_THRESHOLD = false ->
  let o := analyzeAndCompare getFeatures decodeChannel st popBuffer in
  finished o = true /\
  is_accept (statusText (final o)) = false /\
  counter (final o) = counter st /\
  cooldown (final o) = cooldown st /\
  running (final o) = running st /\
  (forall next,
     (0 <? cooldown st)%Z = false -> JS.gt (peak next) THRESHOLD = true ->
     onaudioprocess getFeatures decodeChannel (final o) next
     = analyzeAndCompare getFeatures decodeChannel (final o) next /\
     onaudioprocess_begin getFeatures (final o) next
     = analyzeAndCompare_begin getFeatures (final o) next).
Proof.
  intros Hrej o. subst o. rewrite analyzeAndCompare_result.
  assert (forall st' : @state Blob, cooldown st' = cooldown st ->
            forall next, (0 <? cooldown st)%Z = false ->
            JS.gt (peak next) THRESHOLD = true ->
            onaudioprocess getFeatures decodeChannel st' next
            = analyzeAndCompare getFeatures decodeChannel st' next /\
            onaudioprocess_begin getFeatures st' next
            = analyzeAndCompare_begin getFeatures st' next) as Hnext.
  { intros st' Hc next Hcool Hloud.
    unfold onaudioprocess, onaudioprocess_begin, frame_handler.
    by rewrite Hc, Hcool, Hloud. }
  destruct (refSamples st) as [|ref refs] eqn:Hrefs; simpl.
  - split_and!; try done. by apply Hnext.
  - destruct Hrej as [?|Hrej]; [done|]. unfold verdict. rewrite Hrej. simpl.
    split_and!; try done. by apply Hnext.
Qed.

(** ** The frame handler and the cooldown *)

Lemma set_cooldown_same st : set_cooldown (cooldown st) st = st.
Proof. by destruct st. Qed.

(** A frame that arrives during the cooldown only decrements it, whatever
    it contains. *)
Lemma frame_handler_cooling matcher st input :
  (0 < cooldown st)%Z ->
  frame_handler matcher st input = Finished (set_cooldown (cooldown st - 1) st).
Proof.
  intros Hc. unfold frame_handler.
  by rewrite (proj2 (Z.ltb_lt 0 (cooldown st)) Hc).
Qed.

(** A loud frame outside the cooldown is handed to the match. *)
Lemma frame_handler_trigger matcher st input :
  (cooldown st <= 0)%Z -> JS.gt (peak input) THRESHOLD = true ->
  frame_handler matcher st input = matcher st input.
Proof.
  intros Hc Hloud. unfold frame_handler.
  by rewrite (proj2 (Z.ltb_ge 0 (cooldown st)) Hc), Hloud.
Qed.

Lemma run_frames_cooling (inputs : list (list float)) : forall st,
  (Z.of_nat (length inputs) <= cooldown st)%Z ->
  run_frames getFeatures decodeChannel st inputs
  = set_cooldown (cooldown st - Z.of_nat (length inputs)) st.
Proof.
  induction inputs as [|input inputs IH]; intros st Hc.
  - simpl. by rewrite Z.sub_0_r, set_cooldown_same.
  - simpl length in *. simpl run_frames.
    unfold onaudioprocess. rewrite frame_handler_cooling by lia. simpl final.
    fold (run_frames getFeatures decodeChannel (set_cooldown (cooldown st - 1) st) inputs).
    rewrite IH by (simpl; lia). simpl. unfold set_cooldown. simpl.
    f_equal. lia.
Qed.

(** C4.  From a state whose cooldown is [COOLDOWN_FRAMES] (10), as an
    accepted match leaves it: each of the next ten frames, whatever its
    content, only decrements the cooldown by one and starts no match, and
    after them a frame whose peak exceeds [THRESHOLD] is handed to the match
    again. *)
Theorem cooldown_window st :
  cooldown st = COOLDOWN_FRAMES ->
  (forall inputs : list (list float), (length inputs <= 10)%nat ->
     run_frames getFeatures decodeChannel st inputs
     = set_cooldown (10 - Z.of_nat (length inputs)) st) /\
  (forall (inputs : list (list float)) input, (length inputs < 10)%nat ->
     let st' := run_frames getFeatures decodeChannel st inputs in
     onaudioprocess_begin getFeatures st' input
     = Finished (set_cooldown (cooldown st' - 1) st') /\
     onaudioprocess getFeatures decodeChannel st' input
     = Finished (set_cooldown (cooldown st' - 1) st')) /\
  (forall (inputs : list (list float)) next, length inputs = 10%nat ->
     JS.gt (peak next) THRESHOLD = true ->
     let st' := run_frames getFeatures decodeChannel st inputs in
     cooldown st' = 0%Z /\
     onaudioprocess_begin getFeatures st' next
     = analyzeAndCompare_begin getFeatures st' next /\
     onaudioprocess getFeatures decodeChannel st' next
     = analyzeAndCompare getFeatures decodeChannel st' next).
Proof.
  intros Hc. unfold COOLDOWN_FRAMES in Hc.
  assert (forall inputs : list (list float), (length inputs <= 10)%nat ->
            run_frames getFeatures decodeChannel st inputs
            = set_cooldown (10 - Z.of_nat (length inputs)) st) as Hrun.
  { intros inputs Hlen. rewrite run_frames_cooling by lia. by rewrite Hc. }
  split_and!; [done| |].
  - intros inputs input Hlen st'. subst st'. rewrite Hrun by lia.
    unfold onaudioprocess_begin, onaudioprocess.
    rewrite !frame_handler_cooling by (simpl; lia). done.
  - intros inputs next Hlen Hloud st'. subst st'. rewrite Hrun by lia.
    unfold onaudioprocess_begin, onaudioprocess.
    rewrite !frame_handler_trigger by (done || simpl; lia).
    split_and!; [simpl; lia|done..].
Qed.

(** ** Start and stop *)

(** C3, as the code has it.  [startCounter] with the microphone granted
    sets [running] and leaves the cooldown as it is, and so does
    [stopCounter] with [running] cleared: the cooldown is 0 after a start
    only if it was 0 before it.  Without the microphone the state keeps
    [running] and the cooldown. *)
Theorem startCounter_keeps_cooldown st :
  running (startCounter true st) = true /\
  cooldown (startCounter true st) = cooldown st /\
  (cooldown (startCounter true st) = 0%Z <-> cooldown st = 0%Z) /\
  running (startCounter false st) = running st /\
  cooldown (startCounter false st) = cooldown st /\
  running (stopCounter st) = false /\
  cooldown (stopCounter st) = cooldown st /\
  cooldown (startCounter true (stopCounter st)) = cooldown st.
Proof. by split_and!. Qed.

(** ** The feature cache *)

Lemma cache_ok_fresh (r : @dbRecord Blob) :
  cache_ok getFeatures decodeChannel (fresh_ref r).
Proof. done. Qed.

Lemma cache_ok_cached ref :
  cache_ok getFeatures decodeChannel ref ->
  cache_ok getFeatures decodeChannel (cached getFeatures decodeChannel ref).
Proof.
  unfold cache_ok, cached. destruct (features ref) eqn:Hf; simpl.
  - by rewrite Hf.
  - by intros ->.
Qed.

Lemma verdict_refSamples best st : refSamples (verdict best st) = refSamples st.
Proof. unfold verdict. by destruct (JS.gt _ _). Qed.

Lemma verdict_generation best st : generation (verdict best st) = generation st.
Proof. unfold verdict. by destruct (JS.gt _ _). Qed.

(** What a frame does to the reference array: nothing, or it fills in the
    missing vectors. *)
Lemma frame_refSamples st input :
  let st' := exec getFeatures decodeChannel st (Frame input) in
  generation st' = generation st /\
  (refSamples st' = refSamples st \/
   refSamples st' = cached getFeatures decodeChannel <$> refSamples st).
Proof.
  simpl. unfold onaudioprocess, frame_handler.
  destruct (0 <? cooldown st)%Z; [by split; [|left]|].
  destruct (JS.gt (peak input) THRESHOLD); [|by split; [|left]].
  rewrite analyzeAndCompare_result. simpl.
  destruct (refSamples st) eqn:Hrefs; [by split; [|left]|].
  rewrite verdict_refSamples, verdict_generation. by split; [|right].
Qed.

Lemma exec_cache_ok st c :
  Forall (cache_ok getFeatures decodeChannel) (refSamples st) ->
  Forall (cache_ok getFeatures decodeChannel)
         (refSamples (exec getFeatures decodeChannel st c)).
Proof.
  intros Hok. destruct c as [input|micOk|db].
  - destruct (frame_refSamples st input) as [_ [-> | ->]]; [done|].
    apply Forall_fmap. eapply Forall_impl; [done|]. apply cache_ok_cached.
  - simpl. unfold toggle_click, startCounter, stopCounter.
    by destruct (running st), micOk.
  - simpl. apply Forall_fmap, Forall_true. apply cache_ok_fresh.
Qed.

Lemma run_cache_ok refsFromDB cs :
  Forall (cache_ok getFeatures decodeChannel)
         (refSamples (run getFeatures decodeChannel refsFromDB cs)).
Proof.
  unfold run.
  assert (Forall (cache_ok getFeatures decodeChannel)
            (refSamples (main refsFromDB))) as Hinit.
  { simpl. apply Forall_fmap, Forall_true. apply cache_ok_fresh. }
  revert Hinit. generalize (main refsFromDB).
  induction cs as [|c cs IH]; intros st Hst; simpl; [done|].
  apply IH. by apply exec_cache_ok.
Qed.

(** C9, as the code has it.  In runs where every match is completed before
    the next callback, each reference object has its vector extracted at
    most once: in every reachable state a reference either has no vector and
    no extraction, or the vector of its payload and one extraction.  A frame
    leaves a reference that has its vector untouched, and the match uses
    that vector; it leaves one without vector as it is or, if the frame is
    matched, extracts its vector.  A reload replaces the array by fresh
    objects without vectors. *)
Theorem features_extracted_once refsFromDB cs :
  let st := run getFeatures decodeChannel refsFromDB cs in
  Forall (cache_ok getFeatures decodeChannel) (refSamples st) /\
  (forall ref, ref ∈ refSamples st -> extractions ref <= 1) /\
  (forall input i ref f,
     refSamples st !! i = Some ref -> features ref = Some f ->
     ref_vector getFeatures decodeChannel ref = f /\
     refSamples (exec getFeatures decodeChannel st (Frame input)) !! i = Some ref) /\
  (forall input i ref,
     refSamples st !! i = Some ref -> features ref = None ->
     refSamples (exec getFeatures decodeChannel st (Frame input)) !! i = Some ref \/
     refSamples (exec getFeatures decodeChannel st (Frame input)) !! i
     = Some (store_features (getFeatures (decodeChannel (blob ref))) ref)) /\
  (forall input,
     (cooldown st <= 0)%Z -> JS.gt (peak input) THRESHOLD = true ->
     refSamples (exec getFeatures decodeChannel st (Frame input))
     = cached getFeatures decodeChannel <$> refSamples st) /\
  (forall db,
     let st' := exec getFeatures decodeChannel st (Reload db) in
     generation st' = S (generation st) /\
     length (refSamples st') = length db /\
     Forall (fun ref => features ref = None /\ extractions ref = 0%nat)
            (refSamples st')).
Proof.
  intros st. pose proof (run_cache_ok refsFromDB cs) as Hok. fold st in Hok.
  split_and!.
  - done.
  - intros ref Hin. rewrite Forall_forall in Hok. specialize (Hok ref Hin).
    unfold cache_ok in Hok. destruct (features ref); lia.
  - intros input i ref f Hi Hf. split; [unfold ref_vector; by rewrite Hf|].
    destruct (frame_refSamples st input) as [_ [-> | ->]]; [done|].
    rewrite list_lookup_fmap, Hi. simpl. unfold cached. by rewrite Hf.
  - intros input i ref Hi Hf.
    destruct (frame_refSamples st input) as [_ [-> | ->]]; [by left|right].
    rewrite list_lookup_fmap, Hi. simpl. unfold cached. by rewrite Hf.
  - intros input Hc Hloud. simpl. unfold onaudioprocess.
    rewrite frame_handler_trigger by done. rewrite analyzeAndCompare_result. simpl.
    destruct (refSamples st) eqn:E; [by simpl; rewrite E|].
    by rewrite verdict_refSamples.
  - intros db. simpl. split_and!; [done|by rewrite length_fmap|].
    apply Forall_fmap, Forall_true. done.
Qed.

End Engine.

(** ** Examples on the small instance *)

(** A loud frame equal to the stored reference: the match accepts, the
    counter goes from 0 to 1 and the cooldown is 10. *)
Lemma analyzeAndCompare_accept_witness :
  refSamples (run demo_getFeatures demo_decodeChannel demo_db [Toggle true]) <> [] /\
  counter (final (analyzeAndCompare demo_getFeatures demo_decodeChannel
                    (run demo_getFeatures demo_decodeChannel demo_db [Toggle true])
                    demo_frame)) = 1%Z /\
  cooldown (final (analyzeAndCompare demo_getFeatures demo_decodeChannel
                     (run demo_getFeatures demo_decodeChannel demo_db [Toggle true])
                     demo_frame)) = 10%Z.
Proof.
  assert (refSamples (run demo_getFeatures demo_decodeChannel demo_db [Toggle true])
          <> []) as Hne by discriminate.
  split; [exact Hne|].
  destruct (analyzeAndCompare_accept demo_getFeatures demo_decodeChannel
              (run demo_getFeatures demo_decodeChannel demo_db [Toggle true])
              demo_frame Hne) as (_ & _ & Hacc & _).
  destruct Hacc as (_ & Hcounter & Hcooldown & _); [reflexivity|].
  split; [exact Hcounter|exact Hcooldown].
Defined.

(** C5 with no stored reference. *)
Lemma analyzeAndCompare_no_references_witness :
  refSamples (run demo_getFeatures demo_decodeChannel [] [Toggle true]) = [] /\
  statusText (final (analyzeAndCompare demo_getFeatures demo_decodeChannel
                       (run demo_getFeatures demo_decodeChannel [] [Toggle true])
                       demo_frame)) = MsgNoReferences.
Proof.
  split; [reflexivity|].
  destruct (analyzeAndCompare_no_references demo_getFeatures demo_decodeChannel
              (run demo_getFeatures demo_decodeChannel [] [Toggle true]) demo_frame)
    as (_ & _ & Hmsg & _); [reflexivity|].
  exact Hmsg.
Defined.

(** C8 at a frame orthogonal to the only reference: score 0, rejected. *)
Lemma analyzeAndCompare_reject_witness :
  JS.gt (score (best_match demo_getFeatures demo_decodeChannel
                  (run demo_getFeatures demo_decodeChannel other_db [Toggle true])
                  [0.5; 0]))
        SIMILARITY_THRESHOLD = false /\
  counter (final (analyzeAndCompare demo_getFeatures demo_decodeChannel
                    (run demo_getFeatures demo_decodeChannel other_db [Toggle true])
                    [0.5; 0])) = 0%Z /\
  cooldown (final (analyzeAndCompare demo_getFeatures demo_decodeChannel
                     (run demo_getFeatures demo_decodeChannel other_db [Toggle true])
                     [0.5; 0])) = 0%Z.
Proof.
  split; [reflexivity|].
  destruct (analyzeAndCompare_reject_keeps_state demo_getFeatures demo_decodeChannel
              (run demo_getFeatures demo_decodeChannel other_db [Toggle true])
              [0.5; 0])
    as (_ & _ & Hcounter & Hcooldown & _); [right; reflexivity|].
  split; [exact Hcounter|exact Hcooldown].
Defined.

(** The search at the frame equal to the stored reference. *)
Lemma best_match_first_maximum_witness :
  exists i,
    (i < length (refSamples (main demo_db)))%nat /\
    index (best_match demo_getFeatures demo_decodeChannel (main demo_db) demo_frame)
    = Z.of_nat i.
Proof.
  destruct (best_match_first_maximum demo_getFeatures demo_decodeChannel
              (main demo_db) demo_frame) as [(i & Hlt & Hi & _) _].
  - exists 0%nat. eexists. split; reflexivity.
  - exists i. split; [exact Hlt|exact Hi].
Defined.

(** Against a single reference recorded in silence the only score is NaN,
    and the search returns the score [-1] and the index [-1], which are the
    score and index of no reference. *)
Lemma best_match_silent_reference :
  refSamples (main silent_db) <> [] /\
  scores demo_getFeatures demo_decodeChannel (demo_getFeatures demo_frame)
         (refSamples (main silent_db)) = [nan] /\
  best_match demo_getFeatures demo_decodeChannel (main silent_db) demo_frame
  = {| score := -1; index := -1 |} /\
  ~ (0 <= index (best_match demo_getFeatures demo_decodeChannel
                   (main silent_db) demo_frame)
     < Z.of_nat (length (refSamples (main silent_db))))%Z /\
  statusText (final (analyzeAndCompare demo_getFeatures demo_decodeChannel
                       (main silent_db) demo_frame))
  = MsgNoMatch (-1) (-1).
Proof. split_and!; try (discriminate || reflexivity). simpl. lia. Qed.

(** C4 after the accepted match of the example: ten frames are passed over
    and the cooldown is back to 0. *)
Lemma cooldown_window_witness :
  cooldown (run demo_getFeatures demo_decodeChannel demo_db
              [Toggle true; Frame demo_frame]) = COOLDOWN_FRAMES /\
  run_frames demo_getFeatures demo_decodeChannel
    (run demo_getFeatures demo_decodeChannel demo_db [Toggle true; Frame demo_frame])
    (replicate 10 demo_frame)
  = set_cooldown 0
      (run demo_getFeatures demo_decodeChannel demo_db [Toggle true; Frame demo_frame]).
Proof.
  split; [reflexivity|].
  destruct (cooldown_window demo_getFeatures demo_decodeChannel
              (run demo_getFeatures demo_decodeChannel demo_db
                 [Toggle true; Frame demo_frame])) as (Hrun & _); [reflexivity|].
  apply (Hrun (replicate 10 demo_frame)). simpl. lia.
Defined.

(** C3 as stated fails: an accepted match, three frames, a stop and a
    start leave the detector running with a cooldown of 7. *)
Lemma start_with_leftover_cooldown :
  running (run demo_getFeatures demo_decodeChannel demo_db
             [Toggle true; Frame demo_frame; Frame demo_frame; Frame demo_frame;
              Frame demo_frame; Toggle true]) = false /\
  running (run demo_getFeatures demo_decodeChannel demo_db
             [Toggle true; Frame demo_frame; Frame demo_frame; Frame demo_frame;
              Frame demo_frame; Toggle true; Toggle true]) = true /\
  cooldown (run demo_getFeatures demo_decodeChannel demo_db
              [Toggle true; Frame demo_frame; Frame demo_frame; Frame demo_frame;
               Frame demo_frame; Toggle true; Toggle true]) = 7%Z /\
  cooldown (run demo_getFeatures demo_decodeChannel demo_db
              [Toggle true; Frame demo_frame; Frame demo_frame; Frame demo_frame;
               Frame demo_frame; Toggle true; Toggle true]) <> 0%Z /\
  cooldown (startCounter true
              (stopCounter (set_cooldown 7 (@initial (list float))))) = 7%Z.
Proof. repeat split; (reflexivity || discriminate). Qed.

(** C9 as stated fails when matches overlap: two loud frames arrive before
    the payload of the only reference is decoded; both matches are suspended
    at line 85, and when they are resumed each one extracts the vector of the
    same reference object (and each accepts: the counter is 2). *)
Lemma overlapping_matches_extract_twice :
  exists t1 t2 st1 st2,
    onaudioprocess_begin demo_getFeatures
      (run demo_getFeatures demo_decodeChannel demo_db [Toggle true]) demo_frame
    = Suspended (run demo_getFeatures demo_decodeChannel demo_db [Toggle true]) t1 /\
    onaudioprocess_begin demo_getFeatures
      (run demo_getFeatures demo_decodeChannel demo_db [Toggle true]) demo_frame
    = Suspended (run demo_getFeatures demo_decodeChannel demo_db [Toggle true]) t2 /\
    analyzeAndCompare_resume demo_getFeatures demo_decodeChannel
      (run demo_getFeatures demo_decodeChannel demo_db [Toggle true]) t1
    = Finished st1 /\
    analyzeAndCompare_resume demo_getFeatures demo_decodeChannel st1 t2
    = Finished st2 /\
    extractions <$> refSamples st1 = [1%nat] /\
    extractions <$> refSamples st2 = [2%nat] /\
    ~ Forall (fun ref => extractions ref <= 1) (refSamples st2) /\
    counter st2 = 2%Z.
Proof.
  do 4 eexists. split_and!; try reflexivity.
  intros H. apply Forall_cons_1 in H as [H _]. simpl in H. lia.
Qed.

(** ** Sanity checks of the embedding *)

Example cosine_same : cosineSimilarity [3; 4] [3; 4] = 1.
Proof. reflexivity. Qed.

Example cosine_orthogonal : cosineSimilarity [1; 0] [0; 1] = 0.
Proof. reflexivity. Qed.

Example cosine_opposite : cosineSimilarity [1; 0] [-1; 0] = -1.
Proof. reflexivity. Qed.

Example peak_demo_frame : peak [0.25; -0.5; 0.125] = 0.5.
Proof. reflexivity. Qed.

(** A quiet frame starts no match; a loud one, with the reference stored,
    is accepted and reported with its index and score. *)
Example quiet_frame_ignored :
  exec demo_getFeatures demo_decodeChannel
    (run demo_getFeatures demo_decodeChannel demo_db [Toggle true]) (Frame [0.125; 0])
  = run demo_getFeatures demo_decodeChannel demo_db [Toggle true].
Proof. reflexivity. Qed.

Example loud_frame_accepted :
  is_accept (statusText (run demo_getFeatures demo_decodeChannel demo_db
                           [Toggle true; Frame demo_frame])) = true /\
  counter (run demo_getFeatures demo_decodeChannel demo_db
             [Toggle true; Frame demo_frame]) = 1%Z.
Proof. split; reflexivity. Qed.

(** * Further properties of the code *)

(** ** More binary64 facts *)

Section MoreFloatFacts.

Implicit Types x y t : float.

Lemma mul_comm x y : x * y = y * x.
Proof.
  apply Prim2SF_inj. rewrite !mul_spec. unfold SF64mul, SFmul.
  destruct (Prim2SF x) as [sx|sx| |sx mx ex], (Prim2SF y) as [sy|sy| |sy my ey];
    try done; try by rewrite xorb_comm.
  by rewrite xorb_comm, Pos.mul_comm, Z.add_comm.
Qed.

Lemma SFcompare_refl (a : spec_float) : a <> S754_nan -> SFcompare a a = Some Eq.
Proof.
  intros Ha. destruct (SFcompare_rank a a Ha Ha) as (c & -> & Hlt & Hgt).
  destruct c; [done| |].
  - destruct (lex_lt_irrefl (SFrank a)). by apply Hlt.
  - destruct (lex_lt_irrefl (SFrank a)). by apply Hgt.
Qed.

(** [is_nan] holds of NaN only. *)
Lemma is_nan_true x : is_nan x = true <-> x = nan.
Proof.
  unfold is_nan. rewrite FloatAxioms.eqb_spec. unfold SFeqb. split.
  - intros H. apply Prim2SF_nan_inv.
    destruct (Prim2SF x) as [s|s| |s m e] eqn:Hx; [| |done|];
      by rewrite SFcompare_refl in H.
  - by intros ->.
Qed.

Lemma is_nan_false x : is_nan x = false <-> Prim2SF x <> S754_nan.
Proof.
  rewrite <- not_true_iff_false, is_nan_true. split.
  - intros H E. by apply H, Prim2SF_nan_inv.
  - intros H ->. by apply H.
Qed.

Lemma abs_nan x : is_nan (abs x) = is_nan x.
Proof.
  destruct (is_nan x) eqn:Hx.
  - apply is_nan_true in Hx as ->. done.
  - apply is_nan_false. apply is_nan_false in Hx. rewrite abs_spec.
    by destruct (Prim2SF x).
Qed.

Lemma ltb_leb x y : (x <? y) = true -> (x <=? y) = true.
Proof.
  intros (Hx & Hy & H)%ltb_rank. apply leb_rank. split_and!; [done..|].
  revert H. unfold lex_lt. lia.
Qed.

(** Numbers that compare neither way are equal for every comparison. *)
Lemma ltb_same_rank t x y :
  Prim2SF x <> S754_nan -> Prim2SF y <> S754_nan ->
  (x <? y) = false -> (y <? x) = false -> (t <? x) = (t <? y).
Proof.
  intros Hx Hy Hxy Hyx.
  assert (SFrank (Prim2SF x) = SFrank (Prim2SF y)) as Hr.
  { apply not_true_iff_false in Hxy, Hyx.
    assert (~ lex_lt (SFrank (Prim2SF x)) (SFrank (Prim2SF y))) as H1
      by (intros H; apply Hxy, ltb_rank; done).
    assert (~ lex_lt (SFrank (Prim2SF y)) (SFrank (Prim2SF x))) as H2
      by (intros H; apply Hyx, ltb_rank; done).
    destruct (SFrank (Prim2SF x)) as [[a1 a2] a3], (SFrank (Prim2SF y)) as [[b1 b2] b3].
    unfold lex_lt in H1, H2. simpl in *.
    assert (a1 = b1 /\ a2 = b2 /\ a3 = b3) as (-> & -> & ->) by lia. done. }
  apply eq_true_iff_eq. rewrite !ltb_rank, Hr. tauto.
Qed.

(** [Math.max] of two numbers exceeds [t] iff one of them does. *)
Lemma Math_max_gt t x y :
  is_nan x = false -> is_nan y = false ->
  is_nan (JS.Math_max x y) = false /\
  (t <? JS.Math_max x y) = (t <? x) || (t <? y).
Proof.
  intros Hx Hy. unfold JS.Math_max. rewrite Hx, Hy. simpl.
  destruct (x <? y) eqn:Hxy.
  - split; [done|]. destruct (t <? x) eqn:Htx; [|done].
    simpl. by eapply ltb_trans.
  - destruct (y <? x) eqn:Hyx.
    + split; [done|]. destruct (t <? y) eqn:Hty; [|by rewrite orb_false_r].
      rewrite orb_true_r. by eapply ltb_trans.
    + apply is_nan_false in Hx as Hx', Hy as Hy'.
      rewrite <- (ltb_same_rank t x y Hx' Hy' Hxy Hyx), orb_diag.
      destruct (classify x); try done.
      split; [done|]. by apply ltb_same_rank.
Qed.

Lemma Math_max_nan_l y : JS.Math_max nan y = nan.
Proof. done. Qed.

Lemma Math_max_nan_r x : JS.Math_max x nan = nan.
Proof. unfold JS.Math_max. by rewrite orb_true_r. Qed.

End MoreFloatFacts.

(** ** The similarity scorer, continued *)

Section ScorerMore.

Implicit Types vecA vecB : list float.

(** Exchanging the vectors exchanges the two sums of squares and keeps the
    dot product, over any range of indices. *)
Lemma cosine_sums_swap vecA vecB (l : list nat) : forall d ma mb,
  fold_left (cosine_body vecB vecA) l (Sums d mb ma)
  = Sums (dotProduct (fold_left (cosine_body vecA vecB) l (Sums d ma mb)))
         (magB (fold_left (cosine_body vecA vecB) l (Sums d ma mb)))
         (magA (fold_left (cosine_body vecA vecB) l (Sums d ma mb))).
Proof.
  induction l as [|i l IH]; intros d ma mb; simpl; [done|].
  unfold cosine_body at 2 4 6 8. simpl.
  rewrite <- IH. unfold cosine_body at 2. simpl.
  by rewrite (mul_comm (JS.index vecB i) (JS.index vecA i)).
Qed.

(** X1.  For vectors of equal length the score does not depend on the
    order of the two arguments. *)
Theorem cosineSimilarity_symmetric vecA vecB :
  length vecA = length vecB ->
  cosineSimilarity vecA vecB = cosineSimilarity vecB vecA.
Proof.
  intros Hlen. unfold cosineSimilarity, cosine_sums. rewrite <- Hlen.
  rewrite (cosine_sums_swap vecA vecB _ 0 0 0). simpl.
  by rewrite mul_comm.
Qed.

Lemma cosineSimilarity_symmetric_witness :
  length [3; 4] = length [4; 3] /\
  cosineSimilarity [3; 4] [4; 3] = cosineSimilarity [4; 3] [3; 4].
Proof.
  split; [reflexivity|]. apply cosineSimilarity_symmetric. reflexivity.
Defined.

Lemma dot_nan_at vecA vecB (l : list nat) i : forall s,
  JS.index vecA i * JS.index vecB i = nan -> i ∈ l ->
  dotProduct (fold_left (cosine_body vecA vecB) l s) = nan.
Proof.
  induction l as [|j l IH]; intros s Hi Hin; [by apply elem_of_nil in Hin|].
  simpl. apply elem_of_cons in Hin as [->|Hin]; [|by apply IH].
  apply dot_nan_stays. simpl. by rewrite Hi, add_nan_r.
Qed.

(** X2.  A NaN at an index of the loop, in either vector, makes the score
    NaN. *)
Theorem cosineSimilarity_nan_entry vecA vecB i :
  i < length vecA ->
  is_nan (JS.index vecA i) = true \/ is_nan (JS.index vecB i) = true ->
  cosineSimilarity vecA vecB = nan.
Proof.
  intros Hi Hnan. unfold cosineSimilarity, cosine_sums.
  rewrite (dot_nan_at vecA vecB _ i).
  - apply div_nan_l.
  - destruct Hnan as [->%is_nan_true| ->%is_nan_true].
    + apply mul_nan_l.
    + apply mul_nan_r.
  - apply elem_of_seq. lia.
Qed.

Lemma cosineSimilarity_nan_entry_witness :
  cosineSimilarity [1; nan; 2] [1; 1; 1] = nan.
Proof.
  apply (cosineSimilarity_nan_entry [1; nan; 2] [1; 1; 1] 1).
  - simpl. lia.
  - left. reflexivity.
Defined.

End ScorerMore.

(** ** The match engine, continued *)

Section EngineMore.

Context {Blob : Type}.
Variable getFeatures : list float -> list float.
Variable decodeChannel : Blob -> list float.

Implicit Types (st : @state Blob) (ref : @refSample Blob).
Implicit Types (refs rest : list (@refSample Blob)).
Implicit Types (best : bestMatch) (popFeatures popBuffer input : list float).

Lemma scores_lookup popFeatures refs k s :
  scores getFeatures decodeChannel popFeatures refs !! k = Some s ->
  exists ref, refs !! k = Some ref /\
    s = cosineSimilarity popFeatures (ref_vector getFeatures decodeChannel ref).
Proof.
  unfold scores. rewrite list_lookup_fmap.
  destruct (refs !! k) as [ref|]; simpl; [|done]. intros [= <-]. by exists ref.
Qed.

(** X3.  The best score of a match is never NaN and never below the initial
    [-1], whatever the scores are; and the index is [-1] only together with
    the score [-1]. *)
Theorem best_match_score_bounds st popBuffer :
  is_nan (score (best_match getFeatures decodeChannel st popBuffer)) = false /\
  (-1 <=? score (best_match getFeatures decodeChannel st popBuffer)) = true /\
  (index (best_match getFeatures decodeChannel st popBuffer) = (-1)%Z ->
   score (best_match getFeatures decodeChannel st popBuffer) = -1).
Proof.
  unfold best_match.
  destruct (search_spec
              (scores getFeatures decodeChannel (getFeatures popBuffer) (refSamples st))
              0 initial_best) as [[-> _]|(k & _ & Hi & Hgt & _)].
  - by split_and!.
  - unfold JS.gt in Hgt. simpl in Hgt. split_and!.
    + apply is_nan_false. by apply ltb_rank in Hgt as (_ & ? & _).
    + by apply ltb_leb.
    + rewrite Hi. lia.
Qed.

(** X4.  An accepted match names a reference of the array: the reported
    index is the position of a reference, the reported score is its score
    against the frame, and that score is above the threshold. *)
Theorem accepted_match_names_reference st popBuffer :
  is_accept (statusText
               (final (analyzeAndCompare getFeatures decodeChannel st popBuffer)))
  = true ->
  exists i ref,
    refSamples st !! i = Some ref /\
    statusText (final (analyzeAndCompare getFeatures decodeChannel st popBuffer))
    = MsgMatched (Z.of_nat i)
        (cosineSimilarity (getFeatures popBuffer)
           (ref_vector getFeatures decodeChannel ref)) /\
    JS.gt (cosineSimilarity (getFeatures popBuffer)
             (ref_vector getFeatures decodeChannel ref))
          SIMILARITY_THRESHOLD = true.
Proof.
  rewrite analyzeAndCompare_result.
  destruct (refSamples st) as [|ref0 refs0] eqn:Hrefs; [done|]. rewrite <- Hrefs.
  unfold verdict.
  destruct (JS.gt (score (best_match getFeatures decodeChannel st popBuffer))
                  SIMILARITY_THRESHOLD) eqn:Hacc; [|done].
  intros _. cbn [final statusText set_cooldown setStatus].
  destruct (search_spec
              (scores getFeatures decodeChannel (getFeatures popBuffer) (refSamples st))
              0 initial_best) as [[Hr _]|(k & Hk & Hi & _)];
    change (search _ 0 initial_best)
      with (best_match getFeatures decodeChannel st popBuffer) in *.
  { by rewrite Hr in Hacc. }
  apply scores_lookup in Hk as (ref & Href & Hk).
  exists k, ref. rewrite Hi, <- Hk. by split_and!.
Qed.

(** ** The frame handler, continued *)

(** Once NaN, the running maximum stays NaN. *)
Lemma peak_fold_nan input : 
  fold_left (fun max x => JS.Math_max max (JS.Math_abs x)) input nan = nan.
Proof. induction input as [|x input IH]; simpl; [done|]. apply IH. Qed.

Lemma peak_nan input :
  Exists (fun x => is_nan x = true) input -> peak input = nan.
Proof.
  unfold peak. generalize 0. induction input as [|x input IH]; intros m Hex.
  - by apply Exists_nil in Hex.
  - simpl. apply Exists_cons in Hex as [Hx|Hex]; [|by apply IH].
    apply is_nan_true in Hx as ->. unfold JS.Math_abs.
    change (abs nan) with nan. rewrite Math_max_nan_r. apply peak_fold_nan.
Qed.

Lemma peak_fold_gt t input : forall m,
  is_nan m = false -> Forall (fun x => is_nan x = false) input ->
  (t <? fold_left (fun max x => JS.Math_max max (JS.Math_abs x)) input m)
  = (t <? m) || existsb (fun x => t <? JS.Math_abs x) input.
Proof.
  induction input as [|x input IH]; intros m Hm Hall; simpl.
  - by rewrite orb_false_r.
  - apply Forall_cons_1 in Hall as [Hx Hall].
    assert (is_nan (JS.Math_abs x) = false) as Hax
      by (unfold JS.Math_abs; by rewrite abs_nan).
    destruct (Math_max_gt t m (JS.Math_abs x) Hm Hax) as [Hn Hgt].
    rewrite IH by done. by rewrite Hgt, orb_assoc.
Qed.

(** X5.  A frame in which a sample is NaN has a NaN peak and starts no
    match: outside the cooldown it leaves the state as it is. *)
Theorem nan_frame_ignored (matcher : @state Blob -> list float -> @outcome Blob)
    st input :
  Exists (fun x => is_nan x = true) input ->
  peak input = nan /\
  frame_handler matcher st input
  = Finished (if (0 <? cooldown st)%Z then set_cooldown (cooldown st - 1) st else st).
Proof.
  intros Hex. split; [by apply peak_nan|].
  unfold frame_handler. rewrite (peak_nan _ Hex).
  by destruct (0 <? cooldown st)%Z.
Qed.

(** X6.  For a frame without NaN, the peak exceeds [THRESHOLD] exactly when
    the absolute value of some sample does; so outside the cooldown the
    frame is handed to the match iff one of its samples is louder than the
    threshold, and the empty frame never is. *)
Theorem frame_triggers_iff_loud_sample
    (matcher : @state Blob -> list float -> @outcome Blob) st input :
  Forall (fun x => is_nan x = false) input ->
  (0 <? cooldown st)%Z = false ->
  JS.gt (peak input) THRESHOLD
  = existsb (fun x => JS.gt (JS.Math_abs x) THRESHOLD) input /\
  frame_handler matcher st input
  = (if existsb (fun x => JS.gt (JS.Math_abs x) THRESHOLD) input
     then matcher st input else Finished st).
Proof.
  intros Hall Hc.
  assert (JS.gt (peak input) THRESHOLD
          = existsb (fun x => JS.gt (JS.Math_abs x) THRESHOLD) input) as Hpeak.
  { unfold JS.gt, peak. by rewrite peak_fold_gt. }
  split; [done|]. unfold frame_handler. by rewrite Hc, Hpeak.
Qed.

(** ** Runs without overlap: invariants *)

(** What a frame does to the counter and the cooldown. *)
Lemma frame_effect st input :
  let st' := exec getFeatures decodeChannel st (Frame input) in
  running st' = running st /\ toggleText st' = toggleText st /\
  (((0 < cooldown st)%Z /\ counter st' = counter st /\
    cooldown st' = (cooldown st - 1)%Z) \/
   ((cooldown st <= 0)%Z /\ counter st' = counter st /\
    cooldown st' = cooldown st) \/
   ((cooldown st <= 0)%Z /\ counter st' = (counter st + 1)%Z /\
    cooldown st' = COOLDOWN_FRAMES)).
Proof.
  simpl. unfold onaudioprocess, frame_handler.
  destruct (0 <? cooldown st)%Z eqn:Hc.
  { apply Z.ltb_lt in Hc. simpl. split_and!; [done..|]. left. by split_and!. }
  apply Z.ltb_ge in Hc.
  destruct (JS.gt (peak input) THRESHOLD).
  2:{ simpl. split_and!; [done..|]. right. left. by split_and!. }
  rewrite analyzeAndCompare_result. simpl.
  destruct (refSamples st) as [|ref refs].
  { simpl. split_and!; [done..|]. right. left. by split_and!. }
  unfold verdict. destruct (JS.gt _ SIMILARITY_THRESHOLD); simpl.
  - split_and!; [done..|]. right. right. by split_and!.
  - split_and!; [done..|]. right. left. by split_and!.
Qed.

Lemma toggle_effect (micOk : bool) st :
  counter (toggle_click micOk st) = counter st /\
  cooldown (toggle_click micOk st) = cooldown st /\
  refSamples (toggle_click micOk st) = refSamples st /\
  generation (toggle_click micOk st) = generation st.
Proof. unfold toggle_click, startCounter, stopCounter. by destruct (running st), micOk. Qed.

Lemma debounce_invariant (cs : list (@command Blob)) : forall st (f : Z),
  (0 <= cooldown st <= COOLDOWN_FRAMES)%Z -> (0 <= counter st)%Z ->
  (11 * counter st <= f + cooldown st)%Z ->
  let st' := fold_left (exec getFeatures decodeChannel) cs st in
  (0 <= cooldown st' <= COOLDOWN_FRAMES)%Z /\ (0 <= counter st')%Z /\
  (11 * counter st' <= f + frame_count cs + cooldown st')%Z.
Proof.
  unfold COOLDOWN_FRAMES.
  induction cs as [|c cs IH]; intros st f Hcd Hct Hinv; simpl.
  { split_and!; lia. }
  destruct c as [input|micOk|db].
  - destruct (frame_effect st input) as (_ & _ & Heff). unfold COOLDOWN_FRAMES in Heff.
    destruct (IH (exec getFeatures decodeChannel st (Frame input)) (f + 1)%Z)
      as (H1 & H2 & H3); [lia..|].
    split_and!; lia.
  - destruct (toggle_effect micOk st) as (Hc & Hd & _).
    apply (IH (toggle_click micOk st) f); simpl; lia.
  - apply (IH (loadReferences db st) f); simpl; lia.
Qed.

(** X7.  In a run without overlapping matches the cooldown stays between 0
    and 10, the counter never is negative, and eleven times the counter is
    at most the number of frames handled plus the cooldown: no more than one
    pop is counted per eleven frames. *)
Theorem debounce_bound (refsFromDB : list (@dbRecord Blob)) cs :
  let st := run getFeatures decodeChannel refsFromDB cs in
  (0 <= cooldown st <= COOLDOWN_FRAMES)%Z /\
  (0 <= counter st)%Z /\
  (11 * counter st <= frame_count cs + cooldown st)%Z /\
  (11 * counter st <= frame_count cs + 10)%Z.
Proof.
  intros st. subst st. unfold run.
  destruct (debounce_invariant cs (main refsFromDB) 0) as (H1 & H2 & H3);
    [simpl; unfold COOLDOWN_FRAMES; lia..|].
  unfold COOLDOWN_FRAMES in *. split_and!; lia.
Qed.

Lemma running_label_invariant (cs : list (@command Blob)) : forall st,
  (running st = true -> toggleText st = LabelStop) ->
  running (fold_left (exec getFeatures decodeChannel) cs st) = true ->
  toggleText (fold_left (exec getFeatures decodeChannel) cs st) = LabelStop.
Proof.
  induction cs as [|c cs IH]; intros st Hst; simpl; [done|].
  apply IH. destruct c as [input|micOk|db].
  - destruct (frame_effect st input) as (-> & -> & _). done.
  - simpl. unfold toggle_click, startCounter, stopCounter.
    destruct (running st) eqn:Hr, micOk; simpl; (done || by rewrite Hr).
  - done.
Qed.

(** X8.  Whenever the detector is running, the toggle button reads 'Stop':
    [running] is set only together with that text, and the text is changed
    back only together with [running] being cleared. *)
Theorem running_shows_stop (refsFromDB : list (@dbRecord Blob)) cs :
  running (run getFeatures decodeChannel refsFromDB cs) = true ->
  toggleText (run getFeatures decodeChannel refsFromDB cs) = LabelStop.
Proof. apply running_label_invariant. done. Qed.

(** The stored part of a reference. *)
Lemma cached_record ref :
  ref_id (cached getFeatures decodeChannel ref) = ref_id ref /\
  blob (cached getFeatures decodeChannel ref) = blob ref.
Proof. unfold cached. by destruct (features ref). Qed.

Lemma refs_mirror_invariant (cs : list (@command Blob)) : forall st db,
  ref_id <$> refSamples st = rec_id <$> db ->
  blob <$> refSamples st = rec_blob <$> db ->
  let st' := fold_left (exec getFeatures decodeChannel) cs st in
  ref_id <$> refSamples st' = rec_id <$> loaded_db db cs /\
  blob <$> refSamples st' = rec_blob <$> loaded_db db cs.
Proof.
  induction cs as [|c cs IH]; intros st db Hid Hblob; simpl; [done|].
  destruct c as [input|micOk|db'].
  - apply IH.
    + destruct (frame_refSamples getFeatures decodeChannel st input) as [_ [-> | ->]];
        [done|].
      rewrite <- Hid, <- list_fmap_compose. apply list_fmap_ext.
      intros _ ref _. apply cached_record.
    + destruct (frame_refSamples getFeatures decodeChannel st input) as [_ [-> | ->]];
        [done|].
      rewrite <- Hblob, <- list_fmap_compose. apply list_fmap_ext.
      intros _ ref _. apply cached_record.
  - destruct (toggle_effect micOk st) as (_ & _ & Hrefs & _).
    apply (IH (toggle_click micOk st)); by rewrite Hrefs.
  - apply IH; simpl; by rewrite <- list_fmap_compose.
Qed.

(** X9.  In a run without overlapping matches the reference array always
    mirrors the records of the last load, in their order: frames and
    clicks change neither the identifiers nor the payloads nor the order of
    the references. *)
Theorem references_mirror_last_load (refsFromDB : list (@dbRecord Blob)) cs :
  ref_id <$> refSamples (run getFeatures decodeChannel refsFromDB cs)
  = rec_id <$> loaded_db refsFromDB cs /\
  blob <$> refSamples (run getFeatures decodeChannel refsFromDB cs)
  = rec_blob <$> loaded_db refsFromDB cs /\
  length (refSamples (run getFeatures decodeChannel refsFromDB cs))
  = length (loaded_db refsFromDB cs).
Proof.
  unfold run.
  destruct (refs_mirror_invariant cs (main refsFromDB) refsFromDB) as [Hid Hblob];
    [simpl; by rewrite <- list_fmap_compose..|].
  split_and!; [done..|].
  by rewrite <- (length_fmap ref_id), Hid, length_fmap.
Qed.

(** With the cache discipline kept, the scores are those of the payloads. *)
Lemma scores_of_payloads popFeatures refs :
  Forall (cache_ok getFeatures decodeChannel) refs ->
  scores getFeatures decodeChannel popFeatures refs
  = (fun b => cosineSimilarity popFeatures (getFeatures (decodeChannel b)))
      <$> (blob <$> refs).
Proof.
  intros Hok. unfold scores. rewrite <- list_fmap_compose.
  apply Forall_fmap_ext_1. eapply Forall_impl; [done|].
  intros ref Href. simpl. unfold ref_vector, cache_ok in *.
  destruct (features ref); [|done]. by destruct Href as [_ ->].
Qed.

(** X10.  The cache is transparent: in a run without overlapping matches,
    the scores and the best match of a frame are those obtained from the
    records of the last load with no vector cached. *)
Theorem cache_transparent (refsFromDB : list (@dbRecord Blob)) cs popBuffer :
  scores getFeatures decodeChannel (getFeatures popBuffer)
    (refSamples (run getFeatures decodeChannel refsFromDB cs))
  = scores getFeatures decodeChannel (getFeatures popBuffer)
      (refSamples (main (loaded_db refsFromDB cs))) /\
  best_match getFeatures decodeChannel
    (run getFeatures decodeChannel refsFromDB cs) popBuffer
  = best_match getFeatures decodeChannel (main (loaded_db refsFromDB cs)) popBuffer.
Proof.
  assert (scores getFeatures decodeChannel (getFeatures popBuffer)
            (refSamples (run getFeatures decodeChannel refsFromDB cs))
          = scores getFeatures decodeChannel (getFeatures popBuffer)
              (refSamples (main (loaded_db refsFromDB cs)))) as Hs.
  { unfold run. rewrite !scores_of_payloads.
    - f_equal.
      destruct (refs_mirror_invariant cs (main refsFromDB) refsFromDB) as [_ ->];
        [simpl; by rewrite <- list_fmap_compose..|].
      simpl. by rewrite <- list_fmap_compose.
    - simpl. apply Forall_fmap, Forall_true. apply cache_ok_fresh.
    - apply run_cache_ok. }
  split; [done|]. unfold best_match. by rewrite Hs.
Qed.

(** ** Stretches of a match between suspensions *)

(** A stretch of the loop ends in the decision or suspended, and changes
    nothing before that. *)
Lemma scan_outcome popFeatures rest : forall i best st,
  (exists best', scan popFeatures rest i best st = Finished (verdict best' st)) \/
  (exists t, scan popFeatures rest i best st = Suspended st t).
Proof.
  induction rest as [|ref rest IH]; intros i best st; simpl.
  - left. by exists best.
  - destruct (features ref); [apply IH|]. right. by eexists.
Qed.

Lemma scan_all_cached popFeatures rest : forall i best st,
  Forall (fun ref => is_Some (features ref)) rest ->
  scan popFeatures rest i best st
  = Finished (verdict (search (scores getFeatures decodeChannel popFeatures rest) i best)
                      st).
Proof.
  induction rest as [|ref rest IH]; intros i best st Hall; [done|].
  apply Forall_cons_1 in Hall as [[f Hf] Hall].
  rewrite search_cons. simpl. unfold ref_vector. rewrite Hf. by apply IH.
Qed.

Lemma verdict_effect best st :
  running (verdict best st) = running st /\
  ((counter (verdict best st) = counter st /\
    cooldown (verdict best st) = cooldown st /\
    is_accept (statusText (verdict best st)) = false) \/
   (counter (verdict best st) = (counter st + 1)%Z /\
    cooldown (verdict best st) = COOLDOWN_FRAMES /\
    is_accept (statusText (verdict best st)) = true)).
Proof.
  unfold verdict. destruct (JS.gt _ _); simpl; (split; [done|]).
  - right. by split_and!.
  - left. by split_and!.
Qed.

(** X11.  Once every reference has its vector, a match completes within the
    call that starts it, without suspension, and this lasts over frames and
    clicks until the references are reloaded. *)
Theorem match_completes_in_call_once_cached st (cs : list (@command Blob)) popBuffer :
  Forall (fun ref => is_Some (features ref)) (refSamples st) ->
  Forall (fun c => forall db, c <> Reload db) cs ->
  Forall (fun ref => is_Some (features ref))
         (refSamples (fold_left (exec getFeatures decodeChannel) cs st)) /\
  finished (analyzeAndCompare_begin getFeatures
              (fold_left (exec getFeatures decodeChannel) cs st) popBuffer) = true /\
  analyzeAndCompare_begin getFeatures
    (fold_left (exec getFeatures decodeChannel) cs st) popBuffer
  = analyzeAndCompare getFeatures decodeChannel
      (fold_left (exec getFeatures decodeChannel) cs st) popBuffer.
Proof.
  intros Hall Hcs.
  assert (Forall (fun ref => is_Some (features ref))
            (refSamples (fold_left (exec getFeatures decodeChannel) cs st))) as Hall'.
  { revert st Hall. induction Hcs as [|c cs Hc Hcs IH]; intros st Hall; [done|].
    simpl. apply IH. destruct c as [input|micOk|db].
    - destruct (frame_refSamples getFeatures decodeChannel st input) as [_ [-> | ->]];
        [done|].
      apply Forall_fmap. eapply Forall_impl; [done|].
      intros ref [f Hf]. simpl. unfold cached. rewrite Hf. by exists f.
    - destruct (toggle_effect micOk st) as (_ & _ & Hrefs & _).
      simpl. by rewrite Hrefs.
    - by destruct (Hc db). }
  split; [done|]. generalize dependent (fold_left (exec getFeatures decodeChannel) cs st).
  intros st' Hall'.
  assert (exists st'', analyzeAndCompare_begin getFeatures st' popBuffer = Finished st'')
    as [st'' Hfin].
  { unfold analyzeAndCompare_begin. destruct (refSamples st') eqn:Hrefs; [by eexists|].
    rewrite <- Hrefs. rewrite scan_all_cached by (by rewrite Hrefs). by eexists. }
  split; [by rewrite Hfin|].
  unfold analyzeAndCompare. rewrite Hfin. by rewrite run_task_finished.
Qed.

(** X12.  Any stretch of a match, the call itself or a resumption after
    whatever ran in between, keeps [running] and either leaves the counter
    and the cooldown as they are at that moment (suspended, or finished
    without acceptance) or finishes accepted with the counter one higher
    and the cooldown at 10. *)
Theorem match_stretch_effect st popBuffer (t : @task Blob) (o : @outcome Blob) :
  o = analyzeAndCompare_begin getFeatures st popBuffer \/
  o = analyzeAndCompare_resume getFeatures decodeChannel st t ->
  running (final o) = running st /\
  match o with
  | Suspended st' _ =>
      counter st' = counter st /\ cooldown st' = cooldown st /\
      statusText st' = statusText st
  | Finished st' =>
      (counter st' = counter st /\ cooldown st' = cooldown st /\
       is_accept (statusText st') = false) \/
      (counter st' = (counter st + 1)%Z /\ cooldown st' = COOLDOWN_FRAMES /\
       is_accept (statusText st') = true)
  end.
Proof.
  assert (forall popFeatures rest i best (st0 : @state Blob),
            running st0 = running st -> counter st0 = counter st ->
            cooldown st0 = cooldown st -> statusText st0 = statusText st ->
            forall o, o = scan popFeatures rest i best st0 ->
            running (final o) = running st /\
            match o with
            | Suspended st' _ =>
                counter st' = counter st /\ cooldown st' = cooldown st /\
                statusText st' = statusText st
            | Finished st' =>
                (counter st' = counter st /\ cooldown st' = cooldown st /\
                 is_accept (statusText st') = false) \/
                (counter st' = (counter st + 1)%Z /\ cooldown st' = COOLDOWN_FRAMES /\
                 is_accept (statusText st') = true)
            end) as Hscan.
  { intros popFeatures rest i best st0 Hr Hc Hd Hs o' ->.
    destruct (scan_outcome popFeatures rest i best st0) as [[best' ->]|[t' ->]].
    - simpl. destruct (verdict_effect best' st0) as [Hr' Heff].
      rewrite <- Hr, <- Hc, <- Hd. by split.
    - simpl. by split_and!. }
  intros [-> | ->].
  - unfold analyzeAndCompare_begin. destruct (refSamples st) eqn:Hrefs.
    + simpl. split; [done|]. left. by split_and!.
    + rewrite <- Hrefs. by eapply Hscan.
  - unfold analyzeAndCompare_resume. eapply Hscan; [..|done];
      by destruct (t_gen t =? generation st)%nat.
Qed.

(** X13.  A resumed match writes the vector it computed into at most one
    reference, the one at its index, and into none when the references were
    reloaded since it was suspended; it changes nothing else in the array. *)
Theorem resume_writes_one_reference st (t : @task Blob) :
  refSamples (final (analyzeAndCompare_resume getFeatures decodeChannel st t))
  = (if (t_gen t =? generation st)%nat
     then alter (store_features (getFeatures (decodeChannel (t_blob t)))) (t_i t)
                (refSamples st)
     else refSamples st) /\
  length (refSamples (final (analyzeAndCompare_resume getFeatures decodeChannel st t)))
  = length (refSamples st) /\
  (forall j, j <> t_i t ->
     refSamples (final (analyzeAndCompare_resume getFeatures decodeChannel st t)) !! j
     = refSamples st !! j).
Proof.
  assert (refSamples (final (analyzeAndCompare_resume getFeatures decodeChannel st t))
          = (if (t_gen t =? generation st)%nat
             then alter (store_features (getFeatures (decodeChannel (t_blob t))))
                        (t_i t) (refSamples st)
             else refSamples st)) as Hrefs.
  { unfold analyzeAndCompare_resume.
    match goal with
    | |- refSamples (final (scan ?p ?r ?i ?b ?s)) = _ =>
        destruct (scan_outcome p r i b s) as [[best' ->]|[t' ->]]
    end; simpl; rewrite ?verdict_refSamples;
      by destruct (t_gen t =? generation st)%nat. }
  rewrite Hrefs. split_and!; [done| |].
  - destruct (t_gen t =? generation st)%nat; [apply length_alter|done].
  - intros j Hj. destruct (t_gen t =? generation st)%nat; [|done].
    by apply list_lookup_alter_ne.
Qed.

End EngineMore.

(** ** Recording a reference *)

Section RecorderFacts.

Context {Chunk Blob : Type}.
Variable makeBlob : list Chunk -> Blob.

Implicit Types (r : @recorder Chunk) (es pre post : list (@rec_event Chunk Blob)).
Implicit Types (st : @state Blob).

Lemma recording_label_invariant st es : forall r,
  (refRecording r = true <-> recordBtnText r = RecLabelStop) ->
  refRecording (fold_left (rec_exec makeBlob st) es r) = true <->
  recordBtnText (fold_left (rec_exec makeBlob st) es r) = RecLabelStop.
Proof.
  induction es as [|e es IH]; intros r Hr; simpl; [done|].
  apply IH. destruct e as [micOk|data|db|]; simpl; try done.
  unfold handleRefRecord. destruct (refRecording r), micOk; simpl; try done.
Qed.

(** X14.  After any sequence of clicks, deliveries, stops and timers, a
    recording is in progress exactly when the record button reads
    'Stop Recording'. *)
Theorem recording_shows_stop st es :
  refRecording (fold_left (rec_exec makeBlob st) es recorder_initial) = true <->
  recordBtnText (fold_left (rec_exec makeBlob st) es recorder_initial) = RecLabelStop.
Proof. apply recording_label_invariant. done. Qed.

Lemma delivered_appended st post : forall r,
  Forall (fun e => forall micOk, e <> RecClick micOk) post ->
  refAudioChunks (fold_left (rec_exec makeBlob st) post r)
  = refAudioChunks r ++ delivered post /\
  refRecording (fold_left (rec_exec makeBlob st) post r) = refRecording r.
Proof.
  induction post as [|e post IH]; intros r Hpost.
  { simpl. by rewrite app_nil_r. }
  apply Forall_cons_1 in Hpost as [He Hpost]. cbn [fold_left].
  destruct (IH (rec_exec makeBlob st r e) Hpost) as [-> ->].
  destruct e as [micOk|data|db|]; [by destruct (He micOk)|..]; simpl;
    by rewrite <- ?app_assoc.
Qed.

(** X15.  A recording started by a click starts from an empty list of
    chunks: until the next click the list holds exactly the data delivered
    since that start, in order, whatever was delivered before it, and that
    is the blob [onstop] hands to [saveReference]. *)
Theorem recording_keeps_own_chunks st pre post
    (refsFromDB : list (@dbRecord Blob)) :
  refRecording (fold_left (rec_exec makeBlob st) pre recorder_initial) = false ->
  Forall (fun e => forall micOk, e <> RecClick micOk) post ->
  refRecording (fold_left (rec_exec makeBlob st) (pre ++ RecClick true :: post)
                  recorder_initial) = true /\
  refAudioChunks (fold_left (rec_exec makeBlob st) (pre ++ RecClick true :: post)
                    recorder_initial) = delivered post /\
  (onstop makeBlob refsFromDB st
     (fold_left (rec_exec makeBlob st) (pre ++ RecClick true :: post)
        recorder_initial)).1.1
  = makeBlob (delivered post).
Proof.
  intros Hidle Hpost. rewrite fold_left_app. simpl.
  unfold handleRefRecord at 1 2 3. rewrite Hidle. simpl.
  match goal with
  | |- context [fold_left _ post ?r0] =>
      destruct (delivered_appended st post r0 Hpost) as [Hc Hr]
  end.
  simpl in Hc, Hr. by rewrite Hc, Hr.
Qed.

End RecorderFacts.

(** ** Further examples on the small instance *)

(** X4 at the loud frame equal to the stored reference. *)
Lemma accepted_match_names_reference_witness :
  exists i ref,
    refSamples (main demo_db) !! i = Some ref /\
    statusText (final (analyzeAndCompare demo_getFeatures demo_decodeChannel
                         (main demo_db) demo_frame))
    = MsgMatched (Z.of_nat i)
        (cosineSimilarity (demo_getFeatures demo_frame)
           (ref_vector demo_getFeatures demo_decodeChannel ref)) /\
    JS.gt (cosineSimilarity (demo_getFeatures demo_frame)
             (ref_vector demo_getFeatures demo_decodeChannel ref))
          SIMILARITY_THRESHOLD = true.
Proof.
  apply (accepted_match_names_reference demo_getFeatures demo_decodeChannel
           (main demo_db) demo_frame).
  reflexivity.
Defined.

(** X5 at a frame with a NaN sample next to a loud one. *)
Lemma nan_frame_ignored_witness :
  peak [0.5; nan] = nan /\
  onaudioprocess_begin demo_getFeatures (main demo_db) [0.5; nan]
  = Finished (main demo_db).
Proof.
  apply (nan_frame_ignored (analyzeAndCompare_begin demo_getFeatures)
           (main demo_db) [0.5; nan]).
  apply Exists_cons_tl, Exists_cons_hd. reflexivity.
Defined.

(** X6 at the loud frame of the examples. *)
Lemma frame_triggers_iff_loud_sample_witness :
  JS.gt (peak demo_frame) THRESHOLD = true /\
  onaudioprocess_begin demo_getFeatures (main demo_db) demo_frame
  = analyzeAndCompare_begin demo_getFeatures (main demo_db) demo_frame.
Proof.
  apply (frame_triggers_iff_loud_sample (analyzeAndCompare_begin demo_getFeatures)
           (main demo_db) demo_frame).
  - repeat constructor.
  - reflexivity.
Defined.

(** X8 after a start. *)
Lemma running_shows_stop_witness :
  toggleText (run demo_getFeatures demo_decodeChannel demo_db [Toggle true])
  = LabelStop.
Proof.
  apply (running_shows_stop demo_getFeatures demo_decodeChannel demo_db [Toggle true]).
  reflexivity.
Defined.

(** X11 after the first match of the examples. *)
Lemma match_completes_in_call_once_cached_witness :
  finished (analyzeAndCompare_begin demo_getFeatures
              (run demo_getFeatures demo_decodeChannel demo_db
                 [Toggle true; Frame demo_frame; Frame demo_frame; Toggle true])
              demo_frame) = true.
Proof.
  destruct (match_completes_in_call_once_cached demo_getFeatures demo_decodeChannel
              (run demo_getFeatures demo_decodeChannel demo_db
                 [Toggle true; Frame demo_frame])
              [Frame demo_frame; Toggle true] demo_frame) as (_ & Hfin & _).
  - repeat constructor. simpl. by eexists.
  - repeat constructor; discriminate.
  - exact Hfin.
Defined.

(** X12 at the first call of the examples, which is suspended. *)
Lemma match_stretch_effect_witness :
  running (final (analyzeAndCompare_begin demo_getFeatures (main demo_db) demo_frame))
  = running (main demo_db).
Proof.
  destruct (match_stretch_effect demo_getFeatures demo_decodeChannel
              (main demo_db) demo_frame
              {| t_popFeatures := []; t_best := initial_best; t_i := 0%nat;
                 t_gen := 0%nat; t_blob := [] |}
              (analyzeAndCompare_begin demo_getFeatures (main demo_db) demo_frame))
    as [Hr _].
  - left. reflexivity.
  - exact Hr.
Defined.

(** X15 with a delivery left over from an earlier recording. *)
Lemma recording_keeps_own_chunks_witness :
  refAudioChunks
    (fold_left (rec_exec demo_decodeChannel (main demo_db))
       ([RecClick true; RecData 0.25; RecClick true]
        ++ RecClick true :: [RecData 0.5; RecData 0.125])
       recorder_initial)
  = [0.5; 0.125].
Proof.
  destruct (recording_keeps_own_chunks demo_decodeChannel (main demo_db)
              [RecClick true; RecData 0.25; RecClick true]
              [RecData 0.5; RecData 0.125] demo_db) as (_ & Hc & _).
  - reflexivity.
  - repeat constructor; discriminate.
  - exact Hc.
Defined.

(** ** Matches and rejected decodes *)

Section RejectionFacts.

Context {Blob : Type}.
Variable getFeatures : list float -> list float.
Variable decodeAudio : Blob -> option (list float).

Implicit Types (st : @state Blob) (ref : @refSample Blob).
Implicit Types (refs rest pre : list (@refSample Blob)).
Implicit Types (best : bestMatch) (popFeatures popBuffer : list float).

Lemma decoded_Some (payload : Blob) samples :
  decodeAudio payload = Some samples -> decoded decodeAudio payload = samples.
Proof. unfold decoded. by intros ->. Qed.

(** If every decode that is reached is fulfilled, the match ends by the
    decision, taken on the search over the scores. *)
Lemma settle_scan_fulfilled popFeatures rest : forall pre best st fuel,
  refSamples st = pre ++ rest ->
  length rest <= fuel ->
  Forall (decodable decodeAudio) rest ->
  settle getFeatures decodeAudio fuel (scan popFeatures rest (length pre) best st)
  = Fulfilled
      (verdict
         (search (scores getFeatures (decoded decodeAudio) popFeatures rest)
                 (length pre) best)
         (set_refSamples
            (pre ++ (cached getFeatures (decoded decodeAudio) <$> rest)) st)).
Proof.
  induction rest as [|ref rest IH]; intros pre best st fuel Hrefs Hfuel Hdec.
  - simpl. rewrite app_nil_r in *. destruct fuel; by rewrite <- Hrefs, set_refSamples_same.
  - apply Forall_cons_1 in Hdec as [Href Hdec].
    rewrite search_cons, fmap_cons. unfold cached at 1, ref_vector. simpl scan.
    destruct (features ref) as [f|] eqn:Hf.
    + specialize (IH (pre ++ [ref]) (better popFeatures best (length pre) f) st fuel).
      rewrite length_app, Nat.add_1_r, <- !app_assoc in IH.
      apply IH; [done|simpl in Hfuel; lia|done].
    + destruct (Href Hf) as [samples Hs].
      destruct fuel as [|fuel]; [simpl in Hfuel; lia|].
      simpl settle. rewrite Hs, (decoded_Some _ _ Hs).
      unfold analyzeAndCompare_resume. simpl. rewrite Nat.eqb_refl. simpl.
      set (f := getFeatures samples).
      rewrite Hrefs.
      replace (alter (store_features f) (length pre) (pre ++ ref :: rest))
        with (pre ++ store_features f ref :: rest)
        by (by rewrite <- (Nat.add_0_r (length pre)), alter_app_r).
      replace (drop (S (length pre)) (pre ++ store_features f ref :: rest)) with rest.
      2:{ change (store_features f ref :: rest) with ([store_features f ref] ++ rest).
          rewrite app_assoc. symmetry. apply drop_app_length'.
          by rewrite length_app, Nat.add_1_r. }
      specialize (IH (pre ++ [store_features f ref])
                    (better popFeatures best (length pre) f)
                    (set_refSamples (pre ++ store_features f ref :: rest) st) fuel).
      rewrite length_app, Nat.add_1_r, <- !app_assoc in IH.
      rewrite IH; [done| |simpl in Hfuel; lia|done].
      by destruct st.
Qed.

(** If a decode that is reached is rejected, the match ends there: it has
    taken no decision, and counter, cooldown, status and [running] are as
    before the match. *)
Lemma settle_scan_rejected popFeatures rest : forall pre best st fuel,
  refSamples st = pre ++ rest ->
  length rest <= fuel ->
  Exists (undecodable decodeAudio) rest ->
  exists st' t,
    settle getFeatures decodeAudio fuel (scan popFeatures rest (length pre) best st)
    = Rejected st' t /\
    decodeAudio (t_blob t) = None /\
    counter st' = counter st /\ cooldown st' = cooldown st /\
    statusText st' = statusText st /\ running st' = running st.
Proof.
  induction rest as [|ref rest IH]; intros pre best st fuel Hrefs Hfuel Hbad.
  { by apply Exists_nil in Hbad. }
  simpl scan. destruct (features ref) as [f|] eqn:Hf.
  - apply Exists_cons in Hbad as [[Hnone _]|Hbad]; [congruence|].
    specialize (IH (pre ++ [ref]) (better popFeatures best (length pre) f) st fuel).
    rewrite length_app, Nat.add_1_r, <- !app_assoc in IH.
    apply IH; [done|simpl in Hfuel; lia|done].
  - destruct fuel as [|fuel]; [simpl in Hfuel; lia|]. simpl settle.
    destruct (decodeAudio (blob ref)) as [samples|] eqn:Hs.
    2:{ eexists st, _. split; [done|]. by split_and!. }
    apply Exists_cons in Hbad as [[_ Hnone]|Hbad]; [congruence|].
    unfold analyzeAndCompare_resume. simpl. rewrite Nat.eqb_refl. simpl.
    set (f := getFeatures samples).
    rewrite Hrefs.
    replace (alter (store_features f) (length pre) (pre ++ ref :: rest))
      with (pre ++ store_features f ref :: rest)
      by (by rewrite <- (Nat.add_0_r (length pre)), alter_app_r).
    replace (drop (S (length pre)) (pre ++ store_features f ref :: rest)) with rest.
    2:{ change (store_features f ref :: rest) with ([store_features f ref] ++ rest).
        rewrite app_assoc. symmetry. apply drop_app_length'.
        by rewrite length_app, Nat.add_1_r. }
    specialize (IH (pre ++ [store_features f ref])
                  (better popFeatures best (length pre) f)
                  (set_refSamples (pre ++ store_features f ref :: rest) st) fuel).
    rewrite length_app, Nat.add_1_r, <- !app_assoc in IH.
    destruct IH as (st' & t & Hsettle & Hnone & Hrest);
      [by destruct st|simpl in Hfuel; lia|done|].
    by exists st', t.
Qed.

Lemma settled_fulfilled st popBuffer :
  Forall (decodable decodeAudio) (refSamples st) ->
  analyzeAndCompare_settled getFeatures decodeAudio st popBuffer
  = Fulfilled
      match refSamples st with
      | [] => setStatus MsgNoReferences st
      | _ :: _ =>
          verdict (best_match getFeatures (decoded decodeAudio) st popBuffer)
            (set_refSamples
               (cached getFeatures (decoded decodeAudio) <$> refSamples st) st)
      end.
Proof.
  intros Hdec. unfold analyzeAndCompare_settled, analyzeAndCompare_begin, best_match.
  destruct (refSamples st) as [|ref refs] eqn:Hrefs; [done|].
  by rewrite (settle_scan_fulfilled _ (ref :: refs) [] initial_best st).
Qed.

Lemma settled_rejected st popBuffer :
  Exists (undecodable decodeAudio) (refSamples st) ->
  exists st' t,
    analyzeAndCompare_settled getFeatures decodeAudio st popBuffer = Rejected st' t /\
    decodeAudio (t_blob t) = None /\
    counter st' = counter st /\ cooldown st' = cooldown st /\
    statusText st' = statusText st /\ running st' = running st.
Proof.
  intros Hbad. unfold analyzeAndCompare_settled, analyzeAndCompare_begin.
  destruct (refSamples st) as [|ref refs] eqn:Hrefs; [by apply Exists_nil in Hbad|].
  by apply (settle_scan_rejected _ (ref :: refs) [] initial_best st).
Qed.

(** C1, as the code has it.  With a non-empty reference array, a match in
    which every decode that is reached is fulfilled ends by a report: it
    reports an accepted match exactly when the best score is strictly above
    [SIMILARITY_THRESHOLD] (0.95), naming the best index and score in
    either report, and when it accepts the counter has grown by exactly one
    and the cooldown is [COOLDOWN_FRAMES] (10).  A match in which a decode
    is rejected ends there: it reports nothing and leaves the counter, the
    cooldown and the status as they were. *)
Theorem analyzeAndCompare_reports_when_decoded st popBuffer :
  refSamples st <> [] ->
  (Forall (decodable decodeAudio) (refSamples st) ->
   exists st',
     analyzeAndCompare_settled getFeatures decodeAudio st popBuffer = Fulfilled st' /\
     is_accept (statusText st')
     = JS.gt (score (best_match getFeatures (decoded decodeAudio) st popBuffer))
             SIMILARITY_THRESHOLD /\
     (JS.gt (score (best_match getFeatures (decoded decodeAudio) st popBuffer))
            SIMILARITY_THRESHOLD = true ->
      statusText st'
      = MsgMatched (index (best_match getFeatures (decoded decodeAudio) st popBuffer))
                   (score (best_match getFeatures (decoded decodeAudio) st popBuffer)) /\
      counter st' = (counter st + 1)%Z /\
      cooldown st' = COOLDOWN_FRAMES /\
      COOLDOWN_FRAMES = 10%Z) /\
     (JS.gt (score (best_match getFeatures (decoded decodeAudio) st popBuffer))
            SIMILARITY_THRESHOLD = false ->
      statusText st'
      = MsgNoMatch (index (best_match getFeatures (decoded decodeAudio) st popBuffer))
                   (score (best_match getFeatures (decoded decodeAudio) st popBuffer)) /\
      counter st' = counter st /\
      cooldown st' = cooldown st)) /\
  (Exists (undecodable decodeAudio) (refSamples st) ->
   exists st' t,
     analyzeAndCompare_settled getFeatures decodeAudio st popBuffer = Rejected st' t /\
     decodeAudio (t_blob t) = None /\
     counter st' = counter st /\ cooldown st' = cooldown st /\
     statusText st' = statusText st /\ running st' = running st).
Proof.
  intros Hne. split; [|apply settled_rejected].
  intros Hdec. rewrite settled_fulfilled by done.
  destruct (refSamples st) as [|ref refs] eqn:Hrefs; [done|]. rewrite <- Hrefs.
  eexists. split; [done|]. unfold verdict.
  destruct (JS.gt (score (best_match getFeatures (decoded decodeAudio) st popBuffer))
                  SIMILARITY_THRESHOLD); simpl; by split_and!.
Qed.

(** C7, as the code has it.  In a match in which every decode that is
    reached is fulfilled, and at least one score exceeds the initial best
    score [-1], the search returns the index of a reference and its score;
    no score exceeds it, and every earlier score is strictly lower or NaN,
    so that among equal largest scores the first index is kept.  The match
    ends by a report that names this index and score. *)
Theorem search_returns_first_maximum st popBuffer :
  Forall (decodable decodeAudio) (refSamples st) ->
  (exists j s,
     scores getFeatures (decoded decodeAudio) (getFeatures popBuffer) (refSamples st)
       !! j = Some s /\
     JS.gt s (-1) = true) ->
  (exists i, i < length (refSamples st) /\
     index (best_match getFeatures (decoded decodeAudio) st popBuffer) = Z.of_nat i /\
     scores getFeatures (decoded decodeAudio) (getFeatures popBuffer) (refSamples st)
       !! i
     = Some (score (best_match getFeatures (decoded decodeAudio) st popBuffer)) /\
     (forall j s,
        scores getFeatures (decoded decodeAudio) (getFeatures popBuffer) (refSamples st)
          !! j = Some s ->
        JS.gt s (score (best_match getFeatures (decoded decodeAudio) st popBuffer))
        = false) /\
     (forall j s, j < i ->
        scores getFeatures (decoded decodeAudio) (getFeatures popBuffer) (refSamples st)
          !! j = Some s ->
        (score (best_match getFeatures (decoded decodeAudio) st popBuffer) <=? s) = false /\
        (s =? score (best_match getFeatures (decoded decodeAudio) st popBuffer)) = false)) /\
  (exists st',
     analyzeAndCompare_settled getFeatures decodeAudio st popBuffer = Fulfilled st' /\
     (statusText st'
      = MsgMatched (index (best_match getFeatures (decoded decodeAudio) st popBuffer))
                   (score (best_match getFeatures (decoded decodeAudio) st popBuffer)) \/
      statusText st'
      = MsgNoMatch (index (best_match getFeatures (decoded decodeAudio) st popBuffer))
                   (score (best_match getFeatures (decoded decodeAudio) st popBuffer)))).
Proof.
  intros Hdec (j & s & Hj & Hgt).
  set (ss := scores getFeatures (decoded decodeAudio) (getFeatures popBuffer)
               (refSamples st)) in *.
  set (best := best_match getFeatures (decoded decodeAudio) st popBuffer).
  split.
  - destruct (search_spec ss 0 initial_best)
      as [[_ Hall]|(k & Hk & Hi & _ & Hmax & Hfirst)].
    { apply Hall in Hj. simpl in Hj. congruence. }
    change (search ss 0 initial_best) with best in *.
    exists k. split_and!; try done.
    + apply lookup_lt_Some in Hk. unfold ss, scores in Hk.
      by rewrite length_fmap in Hk.
    + intros j' s' Hlt Hj'. split; [by eapply Hfirst|].
      eapply not_leb_not_eqb, Hfirst; done.
  - rewrite settled_fulfilled by done.
    destruct (refSamples st) as [|ref refs] eqn:Hrefs.
    { clear -Hj Hrefs. subst ss. try rewrite Hrefs in Hj. done. }
    eexists. split; [done|]. fold best. unfold verdict.
    destruct (JS.gt (score best) SIMILARITY_THRESHOLD); [by left|by right].
Qed.

End RejectionFacts.

(** ** Examples with a payload that cannot be decoded *)

(** C1 at the loud frame equal to the stored reference, which decodes: the
    match reports an accepted match, the counter goes from 0 to 1 and the
    cooldown is 10.  With the second reference of [broken_db], which does
    not decode, the match is rejected and the counter stays at 0. *)
Lemma analyzeAndCompare_reports_when_decoded_witness :
  refSamples (main demo_db) <> [] /\
  Forall (decodable demo_decodeAudio) (refSamples (main demo_db)) /\
  (exists st',
     analyzeAndCompare_settled demo_getFeatures demo_decodeAudio (main demo_db) demo_frame
     = Fulfilled st' /\
     is_accept (statusText st') = true /\
     counter st' = 1%Z /\ cooldown st' = 10%Z) /\
  Exists (undecodable demo_decodeAudio) (refSamples (main broken_db)) /\
  (exists st' t,
     analyzeAndCompare_settled demo_getFeatures demo_decodeAudio (main broken_db)
       demo_frame = Rejected st' t /\
     counter st' = 0%Z).
Proof.
  assert (refSamples (main demo_db) <> []) as Hne by discriminate.
  assert (Forall (decodable demo_decodeAudio) (refSamples (main demo_db))) as Hdec.
  { repeat constructor. intros _. by eexists. }
  assert (Exists (undecodable demo_decodeAudio) (refSamples (main broken_db))) as Hbad.
  { apply Exists_cons_tl, Exists_cons_hd. split; reflexivity. }
  split; [exact Hne|]. split; [exact Hdec|]. split; [|split; [exact Hbad|]].
  - destruct (analyzeAndCompare_reports_when_decoded demo_getFeatures demo_decodeAudio
                (main demo_db) demo_frame Hne) as [Hok _].
    destruct (Hok Hdec) as (st' & Hend & Hacc & Hyes & _).
    destruct Hyes as (_ & Hcounter & Hcooldown & _); [reflexivity|].
    exists st'. split; [exact Hend|]. split; [|split; [exact Hcounter|exact Hcooldown]].
    rewrite Hacc. reflexivity.
  - destruct (analyzeAndCompare_reports_when_decoded demo_getFeatures demo_decodeAudio
                (main broken_db) demo_frame) as [_ Hrej]; [discriminate|].
    destruct (Hrej Hbad) as (st' & t & Hend & _ & Hcounter & _).
    exists st', t. split; [exact Hend|exact Hcounter].
Defined.

(** C1 as stated fails: the first reference of [broken_db] scores above the
    threshold against the loud frame, but the payload of the second cannot
    be decoded; the match is rejected at line 85 with that best score in
    hand, reports no accepted match and leaves the counter and the cooldown
    at 0. *)
Lemma accepting_score_not_reported :
  refSamples (main broken_db) <> [] /\
  JS.gt (score (best_match demo_getFeatures (decoded demo_decodeAudio)
                  (main broken_db) demo_frame))
        SIMILARITY_THRESHOLD = true /\
  exists st' t,
    analyzeAndCompare_settled demo_getFeatures demo_decodeAudio (main broken_db)
      demo_frame = Rejected st' t /\
    JS.gt (score (t_best t)) SIMILARITY_THRESHOLD = true /\
    is_accept (statusText st') = false /\
    statusText st' = MsgWelcome /\
    counter st' = 0%Z /\ cooldown st' = 0%Z.
Proof.
  split; [discriminate|]. split; [reflexivity|].
  do 2 eexists. split_and!; reflexivity.
Qed.

(** C7 at three references of which the last two tie for the largest
    score: the search keeps the first of the two, index 1. *)
Lemma search_returns_first_maximum_witness :
  Forall (decodable demo_decodeAudio) (refSamples (main tie_db)) /\
  scores demo_getFeatures (decoded demo_decodeAudio) (demo_getFeatures demo_frame)
    (refSamples (main tie_db)) !! 1%nat
  = scores demo_getFeatures (decoded demo_decodeAudio) (demo_getFeatures demo_frame)
      (refSamples (main tie_db)) !! 2%nat /\
  index (best_match demo_getFeatures (decoded demo_decodeAudio) (main tie_db) demo_frame)
  = 1%Z /\
  exists i, (i < length (refSamples (main tie_db)))%nat /\
    index (best_match demo_getFeatures (decoded demo_decodeAudio) (main tie_db)
             demo_frame) = Z.of_nat i /\
    scores demo_getFeatures (decoded demo_decodeAudio) (demo_getFeatures demo_frame)
      (refSamples (main tie_db)) !! i
    = Some (score (best_match demo_getFeatures (decoded demo_decodeAudio)
                     (main tie_db) demo_frame)).
Proof.
  assert (Forall (decodable demo_decodeAudio) (refSamples (main tie_db))) as Hdec.
  { repeat constructor; intros _; by eexists. }
  split; [exact Hdec|]. split; [reflexivity|]. split; [reflexivity|].
  destruct (search_returns_first_maximum demo_getFeatures demo_decodeAudio
              (main tie_db) demo_frame Hdec) as [(i & Hlt & Hi & Hk & _) _].
  - exists 1%nat. eexists. split; reflexivity.
  - exists i. split; [exact Hlt|]. split; [exact Hi|exact Hk].
Defined.

(** C7 as stated fails.  Against a single reference recorded in silence the
    only score is NaN and the search returns the score [-1] and the index
    [-1], which are those of no reference.  And against [broken_db], where
    the first score exceeds [-1], the match is rejected at the decode of the
    second reference: the search returns nothing. *)
Lemma search_without_reference :
  refSamples (main silent_db) <> [] /\
  Forall (decodable demo_decodeAudio) (refSamples (main silent_db)) /\
  scores demo_getFeatures (decoded demo_decodeAudio) (demo_getFeatures demo_frame)
         (refSamples (main silent_db)) = [nan] /\
  best_match demo_getFeatures (decoded demo_decodeAudio) (main silent_db) demo_frame
  = {| score := -1; index := -1 |} /\
  ~ (0 <= index (best_match demo_getFeatures (decoded demo_decodeAudio)
                   (main silent_db) demo_frame)
     < Z.of_nat (length (refSamples (main silent_db))))%Z /\
  (exists st',
     analyzeAndCompare_settled demo_getFeatures demo_decodeAudio (main silent_db)
       demo_frame = Fulfilled st' /\
     statusText st' = MsgNoMatch (-1) (-1)) /\
  refSamples (main broken_db) <> [] /\
  (exists s,
     scores demo_getFeatures (decoded demo_decodeAudio) (demo_getFeatures demo_frame)
            (refSamples (main broken_db)) !! 0%nat = Some s /\
     JS.gt s (-1) = true) /\
  (exists st' t,
     analyzeAndCompare_settled demo_getFeatures demo_decodeAudio (main broken_db)
       demo_frame = Rejected st' t /\
     statusText st' = MsgWelcome).
Proof.
  split_and!; try (discriminate || reflexivity).
  - repeat constructor. intros _. by eexists.
  - simpl. lia.
  - eexists. split; reflexivity.
  - eexists. split; reflexivity.
  - do 2 eexists. split; reflexivity.
Qed.
